(** * Frostiq: the cleaning and aggregation pipeline of [Frostiq.py]

    A shallow embedding of the data path of the dashboard script: the
    frame as it stands after the column names have been normalised and
    the six required columns are present, each once (lines 46-53), the
    date and engagement coercions (lines 56-73), the row filter
    (line 77), the five aggregate tables and the insight lists built
    from them (lines 95-239).

    Conventions.
    - A cell is the Python object [read_csv] leaves in a frame: an
      integer, a float (the missing value is the float [nan]), or a
      string.  A column that line 53 adds holds the empty string, which
      is not a missing value.
    - The [Engagements] column after line 73 is a column of 64-bit
      integers.  They are held in [Z]: the cast of line 73 lands in the
      64-bit range, and the sums that [groupby] takes of the column wrap
      around ([wrap64]).
    - The two comparisons that choose the trend sentence (lines 149 and
      151) are computed in binary64, as the code computes them.
    - A finite float is held as the rational it denotes.  A decimal
      literal is read as the double nearest to it, ties to even, which
      is how [float] reads it; [to_numeric] is taken to round the same
      way.  The shares, the average and the relative difference shown
      in the insights are exact.
    - Strings are strings of bytes; [lower], [strip] and the reading of
      numbers act on ASCII.
    - [pd.to_datetime] and the date parser behind it belong to pandas;
      the parser is a parameter of the pipeline ([parse_datetime]).
    - Each insight sentence is a constructor carrying the values the
      f-string interpolates; the HTML text is not rebuilt. *)

From Stdlib Require Import ZArith QArith List String Ascii Bool Lia Lqa.
From Stdlib Require Import Sorting.Sorted Sorting.Permutation.
From Stdlib Require Floats.
Import ListNotations.

Open Scope Z_scope.

(** ** Binary64 *)

Module Float64.

Import Floats.

#[local] Set Warnings "-inexact-float".

(** The double nearest to an integer, ties to even: what a 64-bit
    integer becomes as an operand of a float operation. *)
Definition of_int (z : Z) : PrimFloat.float :=
  SF2Prim (binary_normalize prec emax z 0 false).

(** The doubles that the literals [1.1] and [0.9] denote. *)
Definition f1_1 : PrimFloat.float := 1.1%float.

Definition f0_9 : PrimFloat.float := 0.9%float.

(** The double nearest to the quotient of two positive integers, ties to
    even: a double with mantissa [m] and exponent [e], which holds
    [m * 2 ^ e], a zero when the quotient underflows, an infinity when
    it rounds beyond the largest double. *)
Definition of_quotient (n d : positive) : spec_float :=
  SFdiv prec emax (S754_finite false n 0) (S754_finite false d 0).

End Float64.

(** ** Cells *)

(** A Python float: a finite value, an infinity, or [nan]. *)
Inductive float : Type :=
| Fin (q : Q)
| PInf
| NInf
| NaN.

Inductive cell : Type :=
| CInt (z : Z)
| CFloat (x : float)
| CStr (s : string).

(** [pd.isna] on a cell, and [Series.isnull] entry by entry. *)
Definition isnull (c : cell) : bool :=
  match c with
  | CFloat NaN => true
  | _ => false
  end.

(** A calendar date ([datetime.date]) and a parsed [Timestamp]. *)
Record date : Type := mkDate { year : Z; month : Z; day : Z }.

Record Timestamp : Type := mkTimestamp { ts_date : date; ts_nanos : Z }.

Definition date_compare (a b : date) : comparison :=
  match year a ?= year b with
  | Eq => match month a ?= month b with
          | Eq => day a ?= day b
          | c => c
          end
  | c => c
  end.

(** ** Rows and frames

    The frame's [Date] and [Engagements] columns change type as the
    script overwrites them, so a row is indexed by the types of the two. *)
Record row (D E : Type) : Type := mkRow {
  Date : D;
  Platform : cell;
  Sentiment : cell;
  Location : cell;
  Engagements : E;
  Media_Type : cell
}.

Arguments mkRow {D E}.
Arguments Date {D E}.
Arguments Platform {D E}.
Arguments Sentiment {D E}.
Arguments Location {D E}.
Arguments Engagements {D E}.
Arguments Media_Type {D E}.

(** The frame as read, with dates coerced, and with both coerced. *)
Definition DataFrame : Type := list (row cell cell).
Definition DatedFrame : Type := list (row (option Timestamp) cell).
Definition Frame : Type := list (row (option Timestamp) Z).

Definition set_Date {D D' E} (d : D') (r : row D E) : row D' E :=
  mkRow d (Platform r) (Sentiment r) (Location r) (Engagements r) (Media_Type r).

Definition set_Engagements {D E E'} (e : E') (r : row D E) : row D E' :=
  mkRow (Date r) (Platform r) (Sentiment r) (Location r) e (Media_Type r).

Definition len {A} (l : list A) : Z := Z.of_nat (List.length l).

(** [Series.sum] of a boolean column: the number of entries that hold. *)
Definition count {A} (p : A -> bool) (l : list A) : Z := len (filter p l).

(** ** Exceptions

    The step of the data path modelled here that can raise on a frame of
    cells is [astype(int)] on a column holding an infinity; the [try] of
    line 22 catches it.  A file that [read_csv] cannot read, and a file
    with two columns of the same normalised name, fail before that and
    are outside the frames considered. *)
Inductive exn : Type :=
| IntCastingNaNError.

Inductive result (A : Type) : Type :=
| Ok (a : A)
| Raise (e : exn).

Arguments Ok {A}.
Arguments Raise {A}.

Definition bind {A B} (c : result A) (k : A -> result B) : result B :=
  match c with
  | Ok a => k a
  | Raise e => Raise e
  end.

Notation "x <- c ;; k" := (bind c (fun x => k))
  (at level 61, c at next level, right associativity).

Fixpoint mapM {A B} (f : A -> result B) (l : list A) : result (list B) :=
  match l with
  | [] => Ok []
  | a :: l' => b <- f a ;; bs <- mapM f l' ;; Ok (b :: bs)
  end.

(** ** Reading numbers from text

    [float(s)] (line 69) and [pd.to_numeric] (line 73) both read a
    decimal literal: an optional sign, digits with an optional point, an
    optional exponent, or one of the names of infinity.  Both skip the
    blanks of C's [isspace] around the literal, which are fewer than the
    blanks [str.strip] removes (lines 46 and 63).  [float] accepts an
    underscore between two digits; [to_numeric] does not. *)
Definition code (a : ascii) : Z := Z.of_N (N_of_ascii a).

(** [str.isspace] on an ASCII character. *)
Definition is_space (a : ascii) : bool :=
  let n := code a in
  ((9 <=? n) && (n <=? 13)) || ((28 <=? n) && (n <=? 32)).

Fixpoint lstrip (l : list ascii) : list ascii :=
  match l with
  | a :: l' => if is_space a then lstrip l' else l
  | [] => []
  end.

Definition strip_chars (s : string) : list ascii :=
  rev (lstrip (rev (lstrip (list_ascii_of_string s)))).

(** [str.strip]. *)
Definition strip (s : string) : string := string_of_list_ascii (strip_chars s).

(** C's [isspace]: the blanks that [float] and [to_numeric] skip. *)
Definition is_c_space (a : ascii) : bool :=
  let n := code a in
  ((9 <=? n) && (n <=? 13)) || (n =? 32).

Fixpoint skip_spaces (l : list ascii) : list ascii :=
  match l with
  | a :: l' => if is_c_space a then skip_spaces l' else l
  | [] => []
  end.

(** The text between the blanks a number reader skips. *)
Definition trim (l : list ascii) : list ascii :=
  rev (skip_spaces (rev (skip_spaces l))).

Definition lower (a : ascii) : ascii :=
  let n := code a in
  if (65 <=? n) && (n <=? 90) then ascii_of_N (Z.to_N (n + 32)) else a.

Definition digit_of (a : ascii) : option Z :=
  let n := code a in
  if (48 <=? n) && (n <=? 57) then Some (n - 48) else None.

(** Reads a run of digits: the value accumulated onto [acc], the number
    of digits read, and the text that follows them. *)
Fixpoint read_digits (l : list ascii) (acc : Z) (n : nat) : Z * nat * list ascii :=
  match l with
  | a :: l' =>
      match digit_of a with
      | Some d => read_digits l' (10 * acc + d) (S n)
      | None => (acc, n, l)
      end
  | [] => (acc, n, [])
  end.

Definition read_sign (l : list ascii) : bool * list ascii :=
  match l with
  | "-"%char :: l' => (true, l')
  | "+"%char :: l' => (false, l')
  | _ => (false, l)
  end.

(** The exponent part, which must reach the end of the text. *)
Definition read_exponent (l : list ascii) : option Z :=
  match l with
  | [] => Some 0
  | a :: l' =>
      if Ascii.eqb (lower a) "e"%char then
        let '(neg, l1) := read_sign l' in
        match read_digits l1 0 0 with
        | (v, S _, []) => Some (if neg then - v else v)
        | _ => None
        end
      else None
  end.

(** [m * 10 ^ e] as a rational. *)
Definition scale10 (m e : Z) : Q :=
  if 0 <=? e then inject_Z (m * 10 ^ e) else Qmake m (Z.to_pos (10 ^ (- e))).

(** An unsigned decimal literal. *)
Definition read_number (l : list ascii) : option Q :=
  let '(i, ni, l1) := read_digits l 0 0 in
  let '(m, nf, l2) :=
    match l1 with
    | "."%char :: l1' => read_digits l1' i 0
    | _ => (i, 0%nat, l1)
    end in
  match (ni + nf)%nat with
  | O => None
  | S _ =>
      match read_exponent l2 with
      | Some e => Some (scale10 m (e - Z.of_nat nf))
      | None => None
      end
  end.

Definition is_infinity_name (l : list ascii) : bool :=
  let s := string_of_list_ascii (map lower l) in
  String.eqb s "inf"%string || String.eqb s "infinity"%string.

Definition is_nan_name (l : list ascii) : bool :=
  String.eqb (string_of_list_ascii (map lower l)) "nan"%string.

Definition is_digit (a : ascii) : bool :=
  match digit_of a with
  | Some _ => true
  | None => false
  end.

(** The digit separators of a Python literal: an underscore is accepted
    after a digit and before a digit, and is dropped; [prev] is the
    character read before [l].  [None] when one stands elsewhere. *)
Fixpoint drop_underscores (prev : ascii) (l : list ascii) : option (list ascii) :=
  match l with
  | [] => if Ascii.eqb prev "_"%char then None else Some []
  | c :: l' =>
      if Ascii.eqb c "_"%char then
        if is_digit prev then drop_underscores c l' else None
      else if Ascii.eqb prev "_"%char && negb (is_digit c) then None
      else option_map (cons c) (drop_underscores c l')
  end.

(** [m * 2 ^ e] as a rational. *)
Definition scale2 (m e : Z) : Q :=
  if 0 <=? e then inject_Z (m * 2 ^ e) else Qmake m (Z.to_pos (2 ^ (- e))).

(** The float a literal of value [q], not negative, is read as under the
    sign [neg]: the double nearest to [q], and an infinity when [q]
    rounds beyond the largest double. *)
Definition read_double (neg : bool) (q : Q) : float :=
  match Qnum q with
  | Zpos n =>
      match Float64.of_quotient n (Qden q) with
      | SpecFloat.S754_finite _ m e =>
          let x := Qred (scale2 (Zpos m) e) in
          Fin (if neg then Qopp x else x)
      | SpecFloat.S754_infinity _ => if neg then NInf else PInf
      | _ => Fin 0
      end
  | _ => Fin 0
  end.

(** [float(s)] on a string; [None] is the [ValueError] of line 70. *)
Definition python_float (s : string) : option float :=
  match drop_underscores zero (list_ascii_of_string s) with
  | None => None
  | Some l0 =>
      let '(neg, l) := read_sign (trim l0) in
      match read_number l with
      | Some q => Some (read_double neg q)
      | None =>
          if is_infinity_name l then Some (if neg then NInf else PInf)
          else if is_nan_name l then Some NaN
          else None
      end
  end.

(** [pd.to_numeric(..., errors='coerce')] on a string entry: blanks
    around a literal are skipped, the names of infinity are matched on
    the entry as it stands, and anything else is coerced to [nan]. *)
Definition to_numeric_str (s : string) : float :=
  let '(neg, l) := read_sign (trim (list_ascii_of_string s)) in
  match read_number l with
  | Some q => read_double neg q
  | None =>
      let '(neg', l') := read_sign (list_ascii_of_string s) in
      if is_infinity_name l' then (if neg' then NInf else PInf) else NaN
  end.

(** ** The engagement column (lines 60-73) *)

(** Lines 63-71 on one cell: whether the loop counts it.  A number has a
    non-empty [str] and a numeric type, so [float] is only called on a
    string, and only its [ValueError] is caught. *)
Definition is_missing_engagement (c : cell) : bool :=
  if isnull c then true
  else
    match c with
    | CStr s =>
        if String.eqb (strip s) ""%string then true
        else
          match python_float s with
          | Some _ => false
          | None => true
          end
    | _ => false
    end.

(** [pd.to_numeric(..., errors='coerce')] on one entry. *)
Definition to_numeric (c : cell) : float :=
  match c with
  | CInt z => Fin (inject_Z z)
  | CFloat x => x
  | CStr s => to_numeric_str s
  end.

Definition fillna (v : Z) (x : float) : float :=
  match x with
  | NaN => Fin (inject_Z v)
  | _ => x
  end.

(** A finite float with its fraction dropped. *)
Definition Qtrunc (q : Q) : Z := Z.quot (Qnum q) (Zpos (Qden q)).

(** The range of a 64-bit integer. *)
Definition is_int64 (z : Z) : bool := (- 2 ^ 63 <=? z) && (z <? 2 ^ 63).

(** Arithmetic on 64-bit integers wraps around. *)
Definition wrap64 (z : Z) : Z := (z + 2 ^ 63) mod 2 ^ 64 - 2 ^ 63.

(** [astype(int)] on one entry: the fraction is dropped; an infinity
    makes the cast raise; a finite value beyond the 64-bit range is cast
    to the least 64-bit integer, which is what the conversion
    instruction of x86-64 leaves. *)
Definition astype_int (x : float) : result Z :=
  match x with
  | Fin q => Ok (if is_int64 (Qtrunc q) then Qtrunc q else - 2 ^ 63)
  | _ => Raise IntCastingNaNError
  end.

(** Line 73 on one cell. *)
Definition convert_engagement (c : cell) : result Z :=
  astype_int (fillna 0 (to_numeric c)).

(** Line 73 on the frame. *)
Definition coerce_engagements {D} (df : list (row D cell)) : result (list (row D Z)) :=
  mapM (fun r => e <- convert_engagement (Engagements r) ;; Ok (set_Engagements e r)) df.

(** ** The row filter (line 77) *)

Definition notnull_Date {E} (r : row (option Timestamp) E) : bool :=
  match Date r with
  | Some _ => true
  | None => false
  end.

Definition dropna_Date {E} (df : list (row (option Timestamp) E)) :
  list (row (option Timestamp) E) :=
  filter notnull_Date df.

(** ** Aggregate tables *)

(** A table of [{key, metric}] rows, in display order. *)
Definition table (K : Type) : Type := list (K * Z).

(** The sum of a table's metric column. *)
Definition total {K} (t : table K) : Z :=
  fold_right (fun kv s => snd kv + s) 0 t.

Definition float_compare (x y : float) : comparison :=
  match x, y with
  | Fin p, Fin q => Qcompare p q
  | NaN, NaN => Eq
  | NaN, _ => Lt
  | _, NaN => Gt
  | NInf, NInf => Eq
  | NInf, _ => Lt
  | _, NInf => Gt
  | PInf, PInf => Eq
  | PInf, _ => Gt
  | _, PInf => Lt
  end.

(** The order of group keys: numbers by value, strings by code point,
    numbers before strings. *)
Definition key_compare (a b : cell) : comparison :=
  match a, b with
  | CStr s, CStr t => String.compare s t
  | CStr _, _ => Gt
  | _, CStr _ => Lt
  | _, _ => float_compare (to_numeric a) (to_numeric b)
  end.

Definition key_eqb (a b : cell) : bool :=
  match key_compare a b with
  | Eq => true
  | _ => false
  end.

(** A missing key belongs to no group ([dropna=True], the default of
    [value_counts] and of [groupby]). *)
Definition key_of (c : cell) : option cell :=
  if isnull c then None else Some c.

(** [sort_values(by=metric, ascending=False)], as an insertion sort.
    Among rows of equal metric it keeps the earlier row first; the sort
    of pandas promises no order among them, and no statement below
    depends on one. *)
Fixpoint insert_desc {K} (x : K * Z) (t : table K) : table K :=
  match t with
  | [] => [x]
  | y :: t' => if snd y <=? snd x then x :: t else y :: insert_desc x t'
  end.

Definition sort_values_desc {K} (t : table K) : table K :=
  fold_right insert_desc [] t.

(** One more occurrence of [k], keys kept in order of first appearance. *)
Fixpoint tally (k : cell) (t : table cell) : table cell :=
  match t with
  | [] => [(k, 1)]
  | (k', n) :: t' =>
      if key_eqb k k' then (k', n + 1) :: t' else (k', n) :: tally k t'
  end.

(** [Series.value_counts().reset_index()]. *)
Definition value_counts (col : list cell) : table cell :=
  sort_values_desc
    (fold_left (fun t c => match key_of c with Some k => tally k t | None => t end) col []).

(** Adds [v] to the group of [k], the groups kept in ascending key
    order; the sum of a group is a 64-bit integer. *)
Fixpoint add_group {K} (cmp : K -> K -> comparison) (k : K) (v : Z) (t : table K) : table K :=
  match t with
  | [] => [(k, v)]
  | (k', s) :: t' =>
      match cmp k k' with
      | Eq => (k', wrap64 (s + v)) :: t'
      | Lt => (k, v) :: t
      | Gt => (k', s) :: add_group cmp k v t'
      end
  end.

(** [groupby(key)[metric].sum().reset_index()] over (key, metric) pairs,
    the metric a column of 64-bit integers. *)
Definition groupby_sum {K} (cmp : K -> K -> comparison) (keyed : list (option K * Z)) : table K :=
  fold_left
    (fun t kv => match fst kv with Some k => add_group cmp k (snd kv) t | None => t end)
    keyed [].

(** Line 95. *)
Definition sentiment_counts (df : Frame) : table cell :=
  value_counts (map Sentiment df).

(** Line 124: grouped by the calendar date of [Date]. *)
Definition engagement_by_date (df : Frame) : table date :=
  groupby_sum date_compare (map (fun r => (option_map ts_date (Date r), Engagements r)) df).

(** Line 160, the sums per platform in key order. *)
Definition platform_sums (df : Frame) : table cell :=
  groupby_sum key_compare (map (fun r => (key_of (Platform r), Engagements r)) df).

(** Lines 160-161. *)
Definition platform_engagements (df : Frame) : table cell :=
  sort_values_desc (platform_sums df).

(** Line 187. *)
Definition media_type_counts (df : Frame) : table cell :=
  value_counts (map Media_Type df).

(** Line 218: the sums of every location. *)
Definition location_sums (df : Frame) : table cell :=
  groupby_sum key_compare (map (fun r => (key_of (Location r), Engagements r)) df).

(** Line 219: sorted, then [head(5)]. *)
Definition engagements_by_location (df : Frame) : table cell :=
  firstn 5 (sort_values_desc (location_sums df)).

(** ** Insights *)

(** The two wordings of the platform comparison on line 179. *)
Inductive comparison_phrase : Type :=
| MoreBy (percentage_difference : float)
| Fewer.

(** One constructor per sentence template, with the values it shows. *)
Inductive insight : Type :=
| DominantSentiment (k : cell) (share : Q)
| SecondSentiment (k : cell) (share : Q)
| ThirdSentiment (k : cell) (share : Q)
| PeakEngagement (d : date) (n : Z)
| AverageDailyEngagement (avg : Q)
| UpwardTrend
| DownwardTrend
| StableTrend
| MostEngagingPlatform (k : cell) (n : Z)
| PlatformComparison (k : cell) (p : comparison_phrase) (second : cell)
| TopThreePlatforms
| MostPrevalentMediaType (k : cell) (share : Q)
| SecondMediaType (k : cell) (share : Q)
| DiverseMediaMix
| ConcentratedMediaMix
| HighestEngagementLocation (k : cell) (n : Z)
| TopTwoLocations (k : cell) (second : cell)
| TopLocationsRemark.

(** [if len(t) > n: x = t.iloc[n]; insights.append(f(x))]. *)
Definition at_rank {A B} (t : list A) (n : nat) (f : A -> B) : list B :=
  match nth_error t n with
  | Some x => [f x]
  | None => []
  end.

Definition Qltb (a b : Q) : bool := negb (Qle_bool b a).

(** [count / total * 100]. *)
Definition percent (n d : Z) : Q := (inject_Z n / inject_Z d * 100)%Q.

(** Lines 109-119. *)
Definition sentiment_insights (t : table cell) : list insight :=
  let total_sentiments := total t in
  at_rank t 0 (fun kv => DominantSentiment (fst kv) (percent (snd kv) total_sentiments))
  ++ at_rank t 1 (fun kv => SecondSentiment (fst kv) (percent (snd kv) total_sentiments))
  ++ at_rank t 2 (fun kv => ThirdSentiment (fst kv) (percent (snd kv) total_sentiments)).

(** [idxmax]: the first row holding the greatest metric. *)
Fixpoint idxmax {K} (best : K * Z) (t : table K) : K * Z :=
  match t with
  | [] => best
  | x :: t' => idxmax (if snd best <? snd x then x else best) t'
  end.

Definition mean {K} (t : table K) : Q := (inject_Z (total t) / inject_Z (len t))%Q.

(** [b > a * factor] and [b < a * factor] on two 64-bit integers and a
    double: the integers are converted to doubles, the product is
    rounded, and the comparison is that of doubles. *)
Definition gt_scaled (b a : Z) (factor : PrimFloat.float) : bool :=
  PrimFloat.ltb (PrimFloat.mul (Float64.of_int a) factor) (Float64.of_int b).

Definition lt_scaled (b a : Z) (factor : PrimFloat.float) : bool :=
  PrimFloat.ltb (Float64.of_int b) (PrimFloat.mul (Float64.of_int a) factor).

(** Lines 149-154: the first and the last total of the period. *)
Definition trend (start_engagement end_engagement : Z) : insight :=
  if gt_scaled end_engagement start_engagement Float64.f1_1 then UpwardTrend
  else if lt_scaled end_engagement start_engagement Float64.f0_9 then DownwardTrend
  else StableTrend.

(** Lines 138-154. *)
Definition engagement_insights (t : table date) : list insight :=
  match t with
  | [] => []
  | first :: rest =>
      let max_engagement_row := idxmax first rest in
      [ PeakEngagement (fst max_engagement_row) (snd max_engagement_row);
        AverageDailyEngagement (mean t) ]
      ++ (if 1 <? len t then [trend (snd first) (snd (last t first))] else [])
  end.

(** Line 178. *)
Definition percentage_difference (most second : Z) : float :=
  if negb (second =? 0)
  then Fin ((inject_Z most - inject_Z second) / inject_Z second * 100)%Q
  else PInf.

(** [x > 0] on a float. *)
Definition float_positive (x : float) : bool :=
  match x with
  | Fin q => Qltb 0 q
  | PInf => true
  | NInf | NaN => false
  end.

(** The choice of wording on line 179: "more", with the difference,
    when the difference is positive, "fewer" otherwise.  The source
    writes the format specifier inside the call
    ([str(percentage_difference:.1f)]), which Python does not accept as
    an expression; the wording is modelled with the value it is meant to
    show to one decimal. *)
Definition phrase (pd : float) : comparison_phrase :=
  if float_positive pd then MoreBy pd else Fewer.

(** Lines 172-181. *)
Definition platform_insights (t : table cell) : list insight :=
  at_rank t 0 (fun kv => MostEngagingPlatform (fst kv) (snd kv))
  ++ match t with
     | most :: second :: _ =>
         [PlatformComparison (fst most) (phrase (percentage_difference (snd most) (snd second)))
            (fst second)]
     | _ => []
     end
  ++ (if 2 <? len t then [TopThreePlatforms] else []).

(** Lines 201-212. *)
Definition media_type_insights (t : table cell) : list insight :=
  let total_media_types := total t in
  at_rank t 0 (fun kv => MostPrevalentMediaType (fst kv) (percent (snd kv) total_media_types))
  ++ at_rank t 1 (fun kv => SecondMediaType (fst kv) (percent (snd kv) total_media_types))
  ++ at_rank t 0 (fun kv =>
       if Qltb (inject_Z (snd kv) / inject_Z total_media_types)%Q 0.5%Q
       then DiverseMediaMix else ConcentratedMediaMix).

(** Lines 230-238. *)
Definition location_insights (t : table cell) : list insight :=
  at_rank t 0 (fun kv => HighestEngagementLocation (fst kv) (snd kv))
  ++ match t with
     | highest :: second :: _ => [TopTwoLocations (fst highest) (fst second)]
     | _ => []
     end
  ++ (if 2 <? len t then [TopLocationsRemark] else []).

(** ** The page *)

Record CleaningReport : Type := mkReport {
  original_rows : Z;
  cleaned_rows : Z;
  missing_engagements_count : Z;
  invalid_date_count : Z
}.

(** The five tables and the insight list shown under each. *)
Record Dashboard : Type := mkDashboard {
  sentiment_table : table cell;
  sentiment_text : list insight;
  trend_table : table date;
  trend_text : list insight;
  platform_table : table cell;
  platform_text : list insight;
  media_type_table : table cell;
  media_type_text : list insight;
  location_table : table cell;
  location_text : list insight
}.

(** Lines 91-239 on the cleaned frame. *)
Definition build_dashboard (df : Frame) : Dashboard :=
  mkDashboard
    (sentiment_counts df) (sentiment_insights (sentiment_counts df))
    (engagement_by_date df) (engagement_insights (engagement_by_date df))
    (platform_engagements df) (platform_insights (platform_engagements df))
    (media_type_counts df) (media_type_insights (media_type_counts df))
    (engagements_by_location df) (location_insights (engagements_by_location df)).

Definition empty_dashboard : Dashboard :=
  mkDashboard [] [] [] [] [] [] [] [] [] [].

(** What one upload ends in: the error message of line 242, the warning
    of line 87 under the cleaning summary, or the summary and the charts. *)
Inductive outcome : Type :=
| Error (e : exn)
| Warning (r : CleaningReport)
| Success (r : CleaningReport) (d : Dashboard).

Definition report_of (o : outcome) : option CleaningReport :=
  match o with
  | Error _ => None
  | Warning r => Some r
  | Success r _ => Some r
  end.

Definition isNaT (d : option Timestamp) : bool :=
  match d with
  | None => true
  | Some _ => false
  end.

(** ** A date parser to run the pipeline with

    Reads [YYYY-MM-DD] with a month of the right length; every other
    entry fails.  It stands in for the pandas parser when the pipeline is
    evaluated on a concrete frame. *)
Definition leap_year (y : Z) : bool :=
  ((y mod 4 =? 0) && negb (y mod 100 =? 0)) || (y mod 400 =? 0).

Definition days_in_month (y m : Z) : Z :=
  if m =? 2 then (if leap_year y then 29 else 28)
  else if (m =? 4) || (m =? 6) || (m =? 9) || (m =? 11) then 30
  else 31.

Definition parse_iso_date (col : list cell) (c : cell) : option Timestamp :=
  match c with
  | CStr s =>
      match read_digits (list_ascii_of_string s) 0 0 with
      | (y, 4%nat, "-"%char :: l1) =>
          match read_digits l1 0 0 with
          | (m, 2%nat, "-"%char :: l2) =>
              match read_digits l2 0 0 with
              | (d, 2%nat, []) =>
                  if (1 <=? m) && (m <=? 12) && (1 <=? d) && (d <=? days_in_month y m)
                  then Some (mkTimestamp (mkDate y m d) 0)
                  else None
              | _ => None
              end
          | _ => None
          end
      | _ => None
      end
  | _ => None
  end.

(** ** The pipeline *)

Section Pipeline.

(** The date parser of [pd.to_datetime]: [parse_datetime col c] is what
    parsing the column [col] makes of its non-missing entry [c], [None]
    when the entry cannot be read as a date. *)
Variable parse_datetime : list cell -> cell -> option Timestamp.

(** [pd.to_datetime(col, errors='coerce')] at one entry: a missing entry
    stays missing, a failure of the parser is coerced to [NaT]. *)
Definition to_datetime (col : list cell) (c : cell) : option Timestamp :=
  if isnull c then None else parse_datetime col c.

(** Line 57. *)
Definition coerce_dates (df : DataFrame) : DatedFrame :=
  let col := map Date df in
  map (fun r => set_Date (to_datetime col (Date r)) r) df.

(** A date cell that held something and could not be parsed. *)
Definition date_failed_to_parse (col : list cell) (c : cell) : bool :=
  negb (isnull c) && isNaT (parse_datetime col c).

Definition date_parse_failures (df : DataFrame) : Z :=
  count (date_failed_to_parse (map Date df)) (map Date df).

(** Lines 30-79. *)
Definition clean (df : DataFrame) : result (CleaningReport * Frame) :=
  let original_rows := len df in
  let initial_date_nulls := count isnull (map Date df) in
  let df1 := coerce_dates df in
  let invalid_date_count := count isNaT (map Date df1) - initial_date_nulls in
  let missing_engagements_count :=
    count (fun r => is_missing_engagement (Engagements r)) df1 in
  df2 <- coerce_engagements df1 ;;
  let df3 := dropna_Date df2 in
  let cleaned_rows := len df3 in
  Ok (mkReport original_rows cleaned_rows missing_engagements_count invalid_date_count, df3).

(** Lines 22-243. *)
Definition pipeline (df : DataFrame) : outcome :=
  match clean df with
  | Raise e => Error e
  | Ok (r, df') =>
      if cleaned_rows r =? 0 then Warning r else Success r (build_dashboard df')
  end.

End Pipeline.

(** ** Frames to run the pipeline on

    Each is a frame as [read_csv] leaves it: an empty cell of the file is
    [nan]; a column of numbers holds numbers; a column with some text in
    it holds strings. *)

Definition record (d p se l : string) (e : Z) (m : string) : row cell cell :=
  mkRow (CStr d) (CStr p) (CStr se) (CStr l) (CInt e) (CStr m).

(** Five rows: one date is unreadable and one is empty; one engagement
    is empty and one is text; one sentiment is empty. *)
Definition sample_df : DataFrame :=
  [ mkRow (CStr "2024-01-02") (CStr "A") (CStr "Positive") (CStr "Oslo") (CStr "150") (CStr "video");
    mkRow (CStr "2024-01-01") (CStr "B") (CStr "Positive") (CStr "Rome") (CFloat NaN) (CStr "text");
    mkRow (CStr "not-a-date") (CStr "B") (CStr "Negative") (CStr "Rome") (CStr "7") (CStr "text");
    mkRow (CFloat NaN) (CStr "B") (CStr "Negative") (CStr "Rome") (CStr "many") (CStr "text");
    mkRow (CStr "2024-01-01") (CStr "B") (CFloat NaN) (CStr "Rome") (CStr "3.5") (CStr "text") ]%string.

(** One row whose date cell is empty in the file. *)
Definition null_date_df : DataFrame :=
  [ mkRow (CFloat NaN) (CStr "A") (CStr "Positive") (CStr "Oslo") (CInt 10) (CStr "video") ]%string.

(** One row with a negative engagement count. *)
Definition negative_df : DataFrame :=
  [ record "2024-01-01" "A" "Positive" "Oslo" (-5) "video" ]%string.

(** No row with a readable date. *)
Definition undated_df : DataFrame :=
  [ record "not-a-date" "A" "Positive" "Oslo" 150 "video";
    record "tomorrow" "B" "Negative" "Rome" 7 "text" ]%string.

(** A cell that is empty in the file, or a string of blanks only. *)
Definition blank (c : cell) : Prop :=
  isnull c = true \/ exists s, c = CStr s /\ strip s = ""%string.

(** The second row misses its sentiment and its platform. *)
Definition missing_keys_df : DataFrame :=
  [ record "2024-01-01" "A" "Positive" "Oslo" 10 "video";
    mkRow (CStr "2024-01-02") (CFloat NaN) (CFloat NaN) (CStr "Rome") (CInt 5) (CStr "text") ]%string.


(** ** Vocabulary of the statements *)

(** What line 73 leaves of a row: the same row with the converted value. *)
Definition engagement_coerced {D} (r : row D cell) (r' : row D Z) : Prop :=
  convert_engagement (Engagements r) = Ok (Engagements r')
  /\ r' = set_Engagements (Engagements r') r.

(** The metric summed over the pairs that have a key. *)
Definition sum_keyed {K} (keyed : list (option K * Z)) : Z :=
  fold_right (fun kv s => match fst kv with Some _ => snd kv + s | None => s end) 0 keyed.

(** The total of [Engagements] over the rows of a frame. *)
Definition sum_engagements (df : Frame) : Z :=
  fold_right (fun r s => Engagements r + s) 0 df.

(** A 64-bit integer. *)
Definition int64 (z : Z) : Prop := - 2 ^ 63 <= z < 2 ^ 63.

(** The total of the magnitudes of [Engagements] over the rows of a
    frame: while it is below [2 ^ 63] no sum over rows of the frame
    leaves the 64-bit range. *)
Definition sum_abs (df : Frame) : Z :=
  fold_right (fun r s => Z.abs (Engagements r) + s) 0 df.

Definition total_abs {K} (t : table K) : Z :=
  fold_right (fun kv s => Z.abs (snd kv) + s) 0 t.

Definition abs_keyed {K} (keyed : list (option K * Z)) : Z :=
  fold_right (fun kv s => Z.abs (snd kv) + s) 0 keyed.

(** A frame whose [Engagements] are 64-bit integers, as line 73 leaves
    them. *)
Definition int64_frame (df : Frame) : Prop :=
  Forall (fun r => int64 (Engagements r)) df.

(** Two rows of one platform and one day whose engagements add up to
    [2 ^ 63]. *)
Definition overflow_df : DataFrame :=
  [ record "2024-01-01" "A" "Positive" "Oslo" (2 ^ 63 - 1) "video";
    record "2024-01-01" "A" "Positive" "Oslo" 1 "video" ]%string.

(** The rows whose cell in column [col] is not missing. *)
Definition with_key (col : row (option Timestamp) Z -> cell) (df : Frame) : Frame :=
  filter (fun r => negb (isnull (col r))) df.

(** Row [a] stands before row [b] in descending order of the metric. *)
Definition desc {K} (a b : K * Z) : Prop := snd b <= snd a.

(** What line 73 stores for a cell of the frame as read: a 64-bit
    integer; 0 for a cell that is missing or that cannot be read as a
    number; its own value for a cell of an integer column. *)
Definition stored_engagement {D} (r : row D cell) (r' : row D Z) : Prop :=
  int64 (Engagements r')
  /\ (isnull (Engagements r) = true \/ to_numeric (Engagements r) = NaN ->
      Engagements r' = 0)
  /\ (forall z, Engagements r = CInt z -> int64 z -> Engagements r' = z).


(** One row whose date cannot be read and whose engagement is infinite. *)
Definition infinite_undated_df : DataFrame :=
  [ mkRow (CStr "not-a-date") (CStr "A") (CStr "Positive") (CStr "Oslo") (CFloat PInf)
      (CStr "video") ]%string.

Definition dashboard_of (o : outcome) : option Dashboard :=
  match o with
  | Success _ d => Some d
  | _ => None
  end.

(** Row [r] of a frame as read holds the cleaned row [c]: its date cell
    is coerced to the date of [c], its engagement cell is the integer of
    [c], and its other cells are those of [c]. *)
Definition holds_row (parse_datetime : list cell -> cell -> option Timestamp)
  (col : list cell) (r : row cell cell) (c : row (option Timestamp) Z) : Prop :=
  to_datetime parse_datetime col (Date r) = Date c
  /\ Engagements r = CInt (Engagements c)
  /\ Platform r = Platform c
  /\ Sentiment r = Sentiment c
  /\ Location r = Location c
  /\ Media_Type r = Media_Type c.

(** The frame [df] holds the cleaned frame [f], row by row. *)
Definition holds_frame (parse_datetime : list cell -> cell -> option Timestamp)
  (df : DataFrame) (f : Frame) : Prop :=
  Forall2 (holds_row parse_datetime (map Date df)) df f.

(** The cleaned frame of [sample_df], and a frame that holds it. *)
Definition sample_frame : Frame :=
  [ mkRow (Some (mkTimestamp (mkDate 2024 1 2) 0))
      (CStr "A") (CStr "Positive") (CStr "Oslo") 150 (CStr "video");
    mkRow (Some (mkTimestamp (mkDate 2024 1 1) 0))
      (CStr "B") (CStr "Positive") (CStr "Rome") 0 (CStr "text");
    mkRow (Some (mkTimestamp (mkDate 2024 1 1) 0))
      (CStr "B") (CFloat NaN) (CStr "Rome") 3 (CStr "text") ]%string.

(** The cleaning summary of [sample_df]. *)
Definition sample_report : CleaningReport := mkReport 5 3 2 1.

Definition cleaned_sample_df : DataFrame :=
  [ mkRow (CStr "2024-01-02") (CStr "A") (CStr "Positive") (CStr "Oslo") (CInt 150) (CStr "video");
    mkRow (CStr "2024-01-01") (CStr "B") (CStr "Positive") (CStr "Rome") (CInt 0) (CStr "text");
    mkRow (CStr "2024-01-01") (CStr "B") (CFloat NaN) (CStr "Rome") (CInt 3) (CStr "text") ]%string.

(** A file without a [Date] column: line 53 fills the column with the
    empty string. *)
Definition no_date_column_df : DataFrame :=
  [ mkRow (CStr "") (CStr "A") (CStr "Positive") (CStr "Oslo") (CInt 150) (CStr "video");
    mkRow (CStr "") (CStr "B") (CStr "Negative") (CStr "Rome") (CInt 7) (CStr "text") ]%string.

(** A file without an [Engagements] column. *)
Definition no_engagements_column_df : DataFrame :=
  [ mkRow (CStr "2024-01-02") (CStr "A") (CStr "Positive") (CStr "Oslo") (CStr "") (CStr "video");
    mkRow (CStr "bad") (CStr "B") (CStr "Negative") (CStr "Rome") (CStr "") (CStr "text") ]%string.

(** An engagement cell is an infinity once read as a number. *)
Definition infinite_engagement {D} (r : row D cell) : Prop :=
  to_numeric (Engagements r) = PInf \/ to_numeric (Engagements r) = NInf.

(** ** Vocabulary of the statements on grouping *)

(** What the grouping operations rely on in the order of their keys. *)
Record key_order {K} (cmp : K -> K -> comparison) : Prop := mkKeyOrder {
  cmp_refl : forall a, cmp a a = Eq;
  cmp_antisym : forall a b, cmp b a = CompOpp (cmp a b);
  cmp_trans : forall a b c, cmp a b = Lt -> cmp b c = Lt -> cmp a c = Lt;
  cmp_eq_l : forall a b c, cmp a b = Eq -> cmp a c = cmp b c
}.

(** Two keys of the same group. *)
Definition same {K} (cmp : K -> K -> comparison) (a b : K) : bool :=
  match cmp a b with
  | Eq => true
  | _ => false
  end.

(** Row [a] stands before row [b] in ascending order of the key. *)
Definition key_lt {K} (cmp : K -> K -> comparison) (a b : K * Z) : Prop :=
  cmp (fst a) (fst b) = Lt.

(** No two rows of the table have keys of the same group. *)
Fixpoint distinct {K} (cmp : K -> K -> comparison) (t : table K) : Prop :=
  match t with
  | [] => True
  | e :: t' => Forall (fun e' => same cmp (fst e') (fst e) = false) t' /\ distinct cmp t'
  end.

(** The metric the table holds for the group of [k]. *)
Definition lookup {K} (cmp : K -> K -> comparison) (k : K) (t : table K) : Z :=
  total (filter (fun e => same cmp (fst e) k) t).

(** The pairs whose key is of the group of [k]. *)
Definition keyed_as {K} (cmp : K -> K -> comparison) (k : K) (kv : option K * Z) : bool :=
  match fst kv with
  | Some k' => same cmp k' k
  | None => false
  end.

(** The cleaned rows of calendar date [d]. *)
Definition on_date (d : date) (df : Frame) : Frame :=
  filter (fun r => match Date r with
                   | Some ts => same date_compare (ts_date ts) d
                   | None => false
                   end) df.

(** The rows whose cell in column [col] is of the group of [k]. *)
Definition keyed_rows (col : row (option Timestamp) Z -> cell) (k : cell) (df : Frame) : Frame :=
  filter (fun r => match key_of (col r) with
                   | Some k' => same key_compare k' k
                   | None => false
                   end) df.

(** The counts of a column before they are sorted, in order of first
    appearance. *)
Definition tallies (col : list cell) : table cell :=
  fold_left (fun t c => match key_of c with Some k => tally k t | None => t end) col [].

(** Table [t] counts the rows of [df] by column [col]: one row per group,
    no row for a missing key, each count at least 1 and equal to the
    number of rows of the group, and every row with a key is counted. *)
Definition counts_of (col : row (option Timestamp) Z -> cell) (df : Frame)
  (t : table cell) : Prop :=
  distinct key_compare t
  /\ (forall k n, In (k, n) t ->
        isnull k = false /\ 1 <= n /\ n = len (keyed_rows col k df))
  /\ (forall r, In r df -> isnull (col r) = false ->
        exists k n, In (k, n) t /\ same key_compare (col r) k = true).

(** Table [t] sums [Engagements] over the rows of [df] by column [col]:
    one row per group, no row for a missing key, each sum that of the
    rows of the group as a 64-bit integer, and every row with a key is
    in a group. *)
Definition sums_of (col : row (option Timestamp) Z -> cell) (df : Frame)
  (t : table cell) : Prop :=
  distinct key_compare t
  /\ (forall k v, In (k, v) t ->
        isnull k = false /\ v = wrap64 (sum_engagements (keyed_rows col k df)))
  /\ (forall r, In r df -> isnull (col r) = false ->
        exists k v, In (k, v) t /\ same key_compare (col r) k = true).

(** ** The column names (lines 36-53)

    The step before the rows above are taken: the names of the columns
    are normalised and the required columns that the file lacks are
    added.  It is modelled on the named columns of the frame. *)

(** A frame as [read_csv] returns it: the number of its rows and its
    named columns, in the order of the file. *)
Record RawFrame : Type := mkRawFrame {
  n_rows : nat;
  columns : list (string * list cell)
}.

(** Line 36. *)
Definition column_map : list (string * string) :=
  [ ("date", "Date"); ("platform", "Platform"); ("sentiment", "Sentiment");
    ("location", "Location"); ("engagements", "Engagements");
    ("media type", "Media Type") ]%string.

(** Line 50. *)
Definition required_columns : list string :=
  [ "Date"; "Platform"; "Sentiment"; "Location"; "Engagements"; "Media Type" ]%string.

(** [str.lower], on ASCII letters. *)
Definition lower_string (s : string) : string :=
  string_of_list_ascii (map lower (list_ascii_of_string s)).

(** Line 46 on one name: [col.lower().strip()]. *)
Definition normalize_name (col : string) : string := strip (lower_string col).

Fixpoint lookup_name (k : string) (m : list (string * string)) : option string :=
  match m with
  | [] => None
  | (k', v) :: m' => if String.eqb k k' then Some v else lookup_name k m'
  end.

(** Line 47 on one name: [rename(columns=column_map)]. *)
Definition rename_column (col : string) : string :=
  match lookup_name col column_map with
  | Some canonical => canonical
  | None => col
  end.

(** [col in df.columns]. *)
Definition has_column (col : string) (cols : list (string * list cell)) : bool :=
  existsb (fun nc => String.eqb (fst nc) col) cols.

(** Lines 52-53 for one required column: a column absent from the frame
    is added after the others, with the empty string in every row. *)
Definition add_if_missing (n : nat) (cols : list (string * list cell)) (col : string) :
  list (string * list cell) :=
  if has_column col cols then cols else cols ++ [(col, repeat (CStr "") n)].

(** Lines 46-47 on the columns. *)
Definition renamed_columns (cols : list (string * list cell)) : list (string * list cell) :=
  map (fun nc => (rename_column (normalize_name (fst nc)), snd nc)) cols.

(** Lines 46-53. *)
Definition normalize_schema (df : RawFrame) : RawFrame :=
  mkRawFrame (n_rows df)
    (fold_left (add_if_missing (n_rows df)) required_columns
       (renamed_columns (columns df))).

(** [str.strip] on the characters of a string. *)
Definition strip_list (l : list ascii) : list ascii :=
  rev (lstrip (rev (lstrip l))).

(** A column that line 53 added to the frame. *)
Definition added_column (n : nat) (before : list (string * list cell))
  (nc : string * list cell) : Prop :=
  In (fst nc) required_columns
  /\ snd nc = repeat (CStr "") n
  /\ has_column (fst nc) before = false.

(** The share an insight shows, when it shows one, is a percentage above
    0 and at most 100. *)
Definition share_in_range (i : insight) : Prop :=
  match i with
  | DominantSentiment _ p | SecondSentiment _ p | ThirdSentiment _ p
  | MostPrevalentMediaType _ p | SecondMediaType _ p => (0 < p /\ p <= 100)%Q
  | _ => True
  end.

(** * Properties *)

(** ** Counting *)

Lemma len_cons {A} (a : A) (l : list A) : len (a :: l) = 1 + len l.
Proof. unfold len. cbn [List.length]. rewrite Nat2Z.inj_succ. lia. Qed.

Lemma len_nonneg {A} (l : list A) : 0 <= len l.
Proof. unfold len. lia. Qed.

Lemma len_nil_inv {A} (l : list A) : len l = 0 -> l = [].
Proof. destruct l; [reflexivity | rewrite len_cons; pose proof (len_nonneg l); lia]. Qed.

Lemma count_cons {A} (p : A -> bool) (a : A) (l : list A) :
  count p (a :: l) = (if p a then 1 else 0) + count p l.
Proof.
  unfold count. simpl. destruct (p a); [apply len_cons | reflexivity].
Qed.

Lemma count_le_len {A} (p : A -> bool) (l : list A) : 0 <= count p l <= len l.
Proof.
  induction l as [| a l IH].
  - unfold count, len. simpl. lia.
  - rewrite count_cons, len_cons. destruct (p a); lia.
Qed.

Lemma count_map {A B} (p : B -> bool) (g : A -> B) (l : list A) :
  count p (map g l) = count (fun a => p (g a)) l.
Proof.
  induction l as [| a l IH]; [reflexivity |].
  simpl map. rewrite !count_cons, IH. reflexivity.
Qed.

Lemma count_ext {A} (p q : A -> bool) (l : list A) :
  (forall a, p a = q a) -> count p l = count q l.
Proof.
  intros E. induction l as [| a l IH]; [reflexivity |].
  rewrite !count_cons, IH, E. reflexivity.
Qed.

(** Two tests that never hold together split what either of them counts. *)
Lemma count_disjoint {A} (p q : A -> bool) (l : list A) :
  (forall a, p a && q a = false) ->
  count (fun a => p a || q a) l = count p l + count q l.
Proof.
  intros X. induction l as [| a l IH]; [reflexivity |].
  rewrite !count_cons, IH. specialize (X a).
  destruct (p a), (q a); cbn [orb andb] in *; try discriminate; lia.
Qed.

Lemma count_negb {A} (p : A -> bool) (l : list A) :
  count (fun a => negb (p a)) l = len l - count p l.
Proof.
  induction l as [| a l IH]; [reflexivity |].
  rewrite !count_cons, len_cons, IH. destruct (p a); cbn [negb]; lia.
Qed.

(** ** The error monad *)

Lemma mapM_Forall2 {A B} (f : A -> result B) (l : list A) (l' : list B) :
  mapM f l = Ok l' -> Forall2 (fun a b => f a = Ok b) l l'.
Proof.
  revert l'. induction l as [| a l IH]; intros l' H; simpl in H.
  - injection H as <-. constructor.
  - destruct (f a) as [b | e] eqn:Fa; simpl in H; [| discriminate].
    destruct (mapM f l) as [bs | e] eqn:Fl; simpl in H; [| discriminate].
    injection H as <-. constructor; [exact Fa | apply IH; reflexivity].
Qed.

Lemma Forall2_mapM {A B} (f : A -> result B) (l : list A) (l' : list B) :
  Forall2 (fun a b => f a = Ok b) l l' -> mapM f l = Ok l'.
Proof.
  induction 1 as [| a b l l' Fa _ IH]; simpl; [reflexivity |].
  rewrite Fa, IH. reflexivity.
Qed.

Lemma mapM_Raise {A B} (f : A -> result B) (l : list A) (e : exn) :
  mapM f l = Raise e -> Exists (fun a => f a = Raise e) l.
Proof.
  induction l as [| a l IH]; cbn [mapM]; [discriminate |].
  destruct (f a) as [b | e'] eqn:Fa; cbn [bind].
  - destruct (mapM f l) as [bs | e'] eqn:Fl; cbn [bind]; [discriminate |].
    intros H. injection H as ->. right. apply IH. reflexivity.
  - intros H. injection H as ->. left. exact Fa.
Qed.

(** ** The engagement column *)

Lemma is_int64_spec (z : Z) : is_int64 z = true <-> int64 z.
Proof.
  unfold is_int64, int64. rewrite andb_true_iff, Z.leb_le, Z.ltb_lt. reflexivity.
Qed.

Lemma astype_int_int64 (x : float) (z : Z) : astype_int x = Ok z -> int64 z.
Proof.
  destruct x as [q | | |]; cbn [astype_int]; try discriminate.
  intros H. injection H as <-.
  destruct (is_int64 (Qtrunc q)) eqn:E; [apply is_int64_spec; exact E |].
  unfold int64. lia.
Qed.

Lemma convert_engagement_int64 (c : cell) (z : Z) :
  convert_engagement c = Ok z -> int64 z.
Proof. apply astype_int_int64. Qed.

Lemma convert_engagement_CInt (z : Z) : int64 z -> convert_engagement (CInt z) = Ok z.
Proof.
  intros H. unfold convert_engagement. cbn [to_numeric fillna astype_int].
  unfold Qtrunc. cbn [Qnum Qden inject_Z]. rewrite Z.quot_1_r.
  apply is_int64_spec in H. rewrite H. reflexivity.
Qed.

Lemma coerce_engagements_rows {D} (df : list (row D cell)) (df' : list (row D Z)) :
  coerce_engagements df = Ok df' <-> Forall2 engagement_coerced df df'.
Proof.
  unfold coerce_engagements. split.
  - intros H. apply mapM_Forall2 in H.
    induction H as [| r r' l l' Hr _ IH]; constructor; [| exact IH].
    destruct (convert_engagement (Engagements r)) as [e |] eqn:C; simpl in Hr; [| discriminate].
    injection Hr as <-. split; [exact C | reflexivity].
  - intros H. apply Forall2_mapM.
    induction H as [| r r' l l' [C E] _ IH]; constructor; [| exact IH].
    rewrite C. simpl. rewrite E at 2. reflexivity.
Qed.

Lemma engagement_coerced_Date {D} (r : row D cell) (r' : row D Z) :
  engagement_coerced r r' -> Date r' = Date r.
Proof. intros [_ E]. rewrite E. reflexivity. Qed.

Lemma dropna_coerced (df : DatedFrame) (df' : Frame) :
  Forall2 engagement_coerced df df' ->
  Forall2 engagement_coerced (dropna_Date df) (dropna_Date df').
Proof.
  induction 1 as [| r r' l l' Hr _ IH]; [constructor |].
  unfold dropna_Date in *. cbn [filter].
  assert (notnull_Date r' = notnull_Date r) as ->
    by (unfold notnull_Date; rewrite (engagement_coerced_Date _ _ Hr); reflexivity).
  destruct (notnull_Date r); [constructor; assumption | exact IH].
Qed.

Lemma Forall2_len {A B} (R : A -> B -> Prop) (l : list A) (l' : list B) :
  Forall2 R l l' -> len l' = len l.
Proof. intros H. unfold len. rewrite (Forall2_length H). reflexivity. Qed.

Section PipelineFacts.

Variable parse_datetime : list cell -> cell -> option Timestamp.

Lemma isNaT_to_datetime (col : list cell) (c : cell) :
  isNaT (to_datetime parse_datetime col c)
  = isnull c || date_failed_to_parse parse_datetime col c.
Proof.
  unfold to_datetime, date_failed_to_parse. destruct (isnull c); reflexivity.
Qed.

Lemma map_Date_coerce_dates (df : DataFrame) :
  map Date (coerce_dates parse_datetime df)
  = map (to_datetime parse_datetime (map Date df)) (map Date df).
Proof.
  unfold coerce_dates. rewrite !map_map. reflexivity.
Qed.

(** After line 57 the missing dates are those that were missing before
    and those that failed to parse. *)
Lemma date_nulls_after_coercion (df : DataFrame) :
  count isNaT (map Date (coerce_dates parse_datetime df))
  = count isnull (map Date df) + date_parse_failures parse_datetime df.
Proof.
  rewrite map_Date_coerce_dates, count_map. unfold date_parse_failures.
  rewrite <- count_disjoint.
  - apply count_ext. intros c. apply isNaT_to_datetime.
  - intros c. unfold date_failed_to_parse. destruct (isnull c); reflexivity.
Qed.

Lemma len_coerce_dates (df : DataFrame) :
  len (coerce_dates parse_datetime df) = len df.
Proof. unfold coerce_dates, len. rewrite length_map. reflexivity. Qed.

Lemma len_dropna_Date {E} (df : list (row (option Timestamp) E)) :
  len (dropna_Date df) = len df - count isNaT (map Date df).
Proof.
  rewrite count_map, <- (count_negb (fun r => isNaT (Date r))).
  unfold dropna_Date. apply count_ext. intros r. unfold notnull_Date.
  destruct (Date r); reflexivity.
Qed.

(** The shape of a run of [clean] that does not raise. *)
Lemma clean_Ok (df : DataFrame) (r : CleaningReport) (f : Frame) :
  clean parse_datetime df = Ok (r, f) ->
  exists df2 : Frame,
    Forall2 engagement_coerced (coerce_dates parse_datetime df) df2
    /\ f = dropna_Date df2
    /\ r = mkReport (len df) (len f)
             (count (fun x => is_missing_engagement (Engagements x))
                (coerce_dates parse_datetime df))
             (count isNaT (map Date (coerce_dates parse_datetime df))
              - count isnull (map Date df)).
Proof.
  unfold clean. intros H.
  destruct (coerce_engagements (coerce_dates parse_datetime df)) as [df2 | e] eqn:C;
    simpl in H; [| discriminate].
  injection H as <- <-. exists df2. split; [| split; reflexivity].
  apply coerce_engagements_rows. exact C.
Qed.

(** Cleaning completes unless an engagement is infinite. *)
Lemma clean_completes (df : DataFrame) :
  Forall (fun r => exists q, fillna 0 (to_numeric (Engagements r)) = Fin q) df ->
  exists r f, clean parse_datetime df = Ok (r, f).
Proof.
  intros H. unfold clean.
  assert (C : exists df2, coerce_engagements (coerce_dates parse_datetime df) = Ok df2).
  { unfold coerce_dates. generalize (map Date df) as col. intros col.
    induction H as [| r l [q Hq] _ [df2 IH]].
    - exists []. reflexivity.
    - eexists. unfold coerce_engagements in *. cbn [map mapM].
      unfold convert_engagement at 1. cbn [set_Date Engagements]. rewrite Hq.
      cbn [astype_int bind]. rewrite IH. cbn [bind]. reflexivity. }
  destruct C as [df2 ->]. cbn [bind]. eexists. eexists. reflexivity.
Qed.

End PipelineFacts.

(** ** Blank strings *)

Lemma lstrip_head (l : list ascii) (a : ascii) (l' : list ascii) :
  lstrip l = a :: l' -> is_space a = false.
Proof.
  induction l as [| b l IH]; simpl; [discriminate |].
  destruct (is_space b) eqn:S; [exact IH |].
  intros H. injection H as <- _. exact S.
Qed.

Lemma lstrip_nil (l : list ascii) :
  lstrip l = [] -> Forall (fun a => is_space a = true) l.
Proof.
  induction l as [| b l IH]; simpl; [constructor |].
  destruct (is_space b) eqn:S; [| discriminate].
  intros H. constructor; [exact S | exact (IH H)].
Qed.

Lemma strip_chars_nil (s : string) :
  strip_chars s = [] -> Forall (fun a => is_space a = true) (list_ascii_of_string s).
Proof.
  unfold strip_chars. intros H.
  assert (L : lstrip (rev (lstrip (list_ascii_of_string s))) = []).
  { rewrite <- (rev_involutive (lstrip _)), H. reflexivity. }
  apply lstrip_nil, Forall_rev in L. rewrite rev_involutive in L.
  apply lstrip_nil.
  destruct (lstrip (list_ascii_of_string s)) as [| a l'] eqn:E; [reflexivity |].
  apply lstrip_head in E. inversion L; congruence.
Qed.

Lemma strip_empty (s : string) : strip s = ""%string -> strip_chars s = [].
Proof.
  unfold strip. destruct (strip_chars s); [reflexivity | discriminate].
Qed.

(** Blanks alone carry no sign and are no name of infinity. *)
Lemma blanks_not_infinity (l : list ascii) :
  Forall (fun a => is_space a = true) l ->
  read_sign l = (false, l) /\ is_infinity_name l = false.
Proof.
  intros H. destruct H as [| a l' Ha _]; [split; reflexivity |].
  destruct a as [[] [] [] [] [] [] [] []]; try discriminate Ha; split; reflexivity.
Qed.

Lemma skip_spaces_incl (l : list ascii) (a : ascii) :
  In a (skip_spaces l) -> In a l.
Proof.
  induction l as [| b l IH]; cbn [skip_spaces]; [auto |].
  destruct (is_c_space b); [intros H; right; exact (IH H) | auto].
Qed.

Lemma trim_incl (l : list ascii) (a : ascii) : In a (trim l) -> In a l.
Proof.
  unfold trim. intros H. apply in_rev, skip_spaces_incl in H.
  apply in_rev in H. exact (skip_spaces_incl _ _ H).
Qed.

(** A literal cannot start with a blank. *)
Lemma read_number_blank (l : list ascii) :
  match l with [] => True | a :: _ => is_space a = true end -> read_number l = None.
Proof.
  destruct l as [| a l]; [reflexivity |].
  destruct a as [[] [] [] [] [] [] [] []]; intros H; try discriminate H; reflexivity.
Qed.

Lemma to_numeric_str_blank (s : string) :
  strip s = ""%string -> to_numeric_str s = NaN.
Proof.
  intros H. apply strip_empty in H. pose proof (strip_chars_nil s H) as F.
  assert (T : Forall (fun a => is_space a = true) (trim (list_ascii_of_string s))).
  { apply Forall_forall. intros a Ha. rewrite Forall_forall in F.
    exact (F a (trim_incl _ _ Ha)). }
  unfold to_numeric_str.
  destruct (blanks_not_infinity _ T) as [-> _].
  rewrite read_number_blank by (destruct T; auto).
  destruct (blanks_not_infinity _ F) as [-> ->]. reflexivity.
Qed.

Lemma blank_is_missing (c : cell) :
  blank c -> is_missing_engagement c = true /\ convert_engagement c = Ok 0.
Proof.
  intros [N | [s [-> S]]].
  - destruct c as [z | [q | | |] | s]; try discriminate N. split; reflexivity.
  - unfold is_missing_engagement, convert_engagement. cbn [isnull to_numeric].
    rewrite S, (to_numeric_str_blank s S). split; reflexivity.
Qed.

(** ** The cleaning report *)

Lemma report_of_pipeline (parse_datetime : list cell -> cell -> option Timestamp)
  (df : DataFrame) (r : CleaningReport) :
  report_of (pipeline parse_datetime df) = Some r <->
  exists f, clean parse_datetime df = Ok (r, f).
Proof.
  unfold pipeline. destruct (clean parse_datetime df) as [[r0 f0] | e].
  - destruct (cleaned_rows r0 =? 0); simpl; split.
    + intros H. injection H as <-. exists f0. reflexivity.
    + intros [f H]. injection H as <- _. reflexivity.
    + intros H. injection H as <-. exists f0. reflexivity.
    + intros [f H]. injection H as <- _. reflexivity.
  - simpl. split; [discriminate | intros [f H]; discriminate].
Qed.

(** C1, as amended.  When cleaning completes, the cleaned row count is
    at most the original row count, and it is the original row count
    less the rows whose date is missing after coercion: those whose date
    cell failed to parse together with those whose date cell was already
    empty.  The rows kept are exactly the rows with a parsed date, each
    with its engagement converted. *)
Theorem cleaned_row_count (parse_datetime : list cell -> cell -> option Timestamp)
  (df : DataFrame) (r : CleaningReport) (f : Frame) :
  clean parse_datetime df = Ok (r, f) ->
  cleaned_rows r <= original_rows r
  /\ cleaned_rows r
     = original_rows r
       - (date_parse_failures parse_datetime df + count isnull (map Date df))
  /\ cleaned_rows r
     = original_rows r - (invalid_date_count r + count isnull (map Date df))
  /\ Forall2 engagement_coerced (dropna_Date (coerce_dates parse_datetime df)) f.
Proof.
  intros H. destruct (clean_Ok _ _ _ _ H) as [df2 [C [-> ->]]]. cbn.
  pose proof (dropna_coerced _ _ C) as K.
  rewrite (Forall2_len _ _ _ K), len_dropna_Date, len_coerce_dates.
  rewrite date_nulls_after_coercion.
  pose proof (count_le_len isnull (map Date df)).
  pose proof (count_le_len (date_failed_to_parse parse_datetime (map Date df)) (map Date df)).
  unfold date_parse_failures.
  repeat split; try lia. exact K.
Qed.

(** The statement at [sample_df], whose cleaning gives [sample_report]
    and [sample_frame]. *)
Lemma cleaned_row_count_witness :
  cleaned_rows sample_report <= original_rows sample_report
  /\ cleaned_rows sample_report
     = original_rows sample_report
       - (date_parse_failures parse_iso_date sample_df + count isnull (map Date sample_df))
  /\ cleaned_rows sample_report
     = original_rows sample_report
       - (invalid_date_count sample_report + count isnull (map Date sample_df))
  /\ Forall2 engagement_coerced
       (dropna_Date (coerce_dates parse_iso_date sample_df)) sample_frame.
Proof.
  apply (cleaned_row_count parse_iso_date sample_df sample_report sample_frame).
  vm_compute. reflexivity.
Defined.

(** C1 as stated fails on a frame whose only row has an empty date cell:
    no date failed to parse, yet the row is dropped. *)
Lemma cleaned_row_count_null_date :
  exists r f,
    clean parse_iso_date null_date_df = Ok (r, f)
    /\ date_parse_failures parse_iso_date null_date_df = 0
    /\ invalid_date_count r = 0
    /\ original_rows r = 1
    /\ cleaned_rows r = 0
    /\ cleaned_rows r <> original_rows r - date_parse_failures parse_iso_date null_date_df.
Proof.
  eexists. eexists. split; [vm_compute; reflexivity |].
  repeat split; vm_compute; discriminate.
Qed.

(** C4.  The reported [invalid_date_count] is the number of date cells
    that held something before coercion and failed to parse; a cell that
    was already empty is not counted, the count being the missing dates
    after coercion less the missing dates before. *)
Theorem invalid_date_count_delta (parse_datetime : list cell -> cell -> option Timestamp)
  (df : DataFrame) (r : CleaningReport) :
  report_of (pipeline parse_datetime df) = Some r ->
  invalid_date_count r = date_parse_failures parse_datetime df
  /\ invalid_date_count r
     = count isNaT (map Date (coerce_dates parse_datetime df)) - count isnull (map Date df)
  /\ invalid_date_count r
     = count (fun c => negb (isnull c) && isNaT (to_datetime parse_datetime (map Date df) c))
         (map Date df).
Proof.
  intros H. apply report_of_pipeline in H. destruct H as [f H].
  destruct (clean_Ok _ _ _ _ H) as [df2 [_ [_ ->]]]. cbn.
  rewrite date_nulls_after_coercion. split; [lia | split; [lia |]].
  replace (count isnull (map Date df) + date_parse_failures parse_datetime df
           - count isnull (map Date df))
    with (date_parse_failures parse_datetime df) by lia.
  unfold date_parse_failures. apply count_ext. intros c.
  unfold date_failed_to_parse, to_datetime. destruct (isnull c); reflexivity.
Qed.

(** The statement at [sample_df]: one date failed to parse, the empty
    one is not counted. *)
Lemma invalid_date_count_delta_witness :
  invalid_date_count sample_report = date_parse_failures parse_iso_date sample_df
  /\ invalid_date_count sample_report
     = count isNaT (map Date (coerce_dates parse_iso_date sample_df))
       - count isnull (map Date sample_df)
  /\ invalid_date_count sample_report
     = count (fun c => negb (isnull c)
                       && isNaT (to_datetime parse_iso_date (map Date sample_df) c))
         (map Date sample_df).
Proof.
  apply (invalid_date_count_delta parse_iso_date sample_df sample_report).
  vm_compute. reflexivity.
Defined.

(** C3, as amended.  When the coercion of line 73 completes, the
    engagement of every record is a valid integer, a 64-bit one, and it
    is 0 whenever the original cell was absent or unparseable; it need
    not be non-negative: a cell of an integer column keeps its value,
    whatever its sign. *)
Theorem engagements_after_coercion {D : Type} (df : list (row D cell)) (df' : list (row D Z)) :
  coerce_engagements df = Ok df' -> Forall2 stored_engagement df df'.
Proof.
  intros H. apply coerce_engagements_rows in H.
  induction H as [| r r' l l' [C _] _ IH]; constructor; [| exact IH].
  unfold stored_engagement.
  split; [exact (convert_engagement_int64 _ _ C) |]. split.
  - assert (N : isnull (Engagements r) = true -> to_numeric (Engagements r) = NaN).
    { destruct (Engagements r) as [z | [q | | |] | s]; try discriminate. reflexivity. }
    intros X. assert (T : to_numeric (Engagements r) = NaN) by (destruct X; auto).
    unfold convert_engagement in C. rewrite T in C. cbn in C. congruence.
  - intros z Ez I. rewrite Ez, (convert_engagement_CInt z I) in C. congruence.
Qed.

(** The statement at [sample_df]: the empty cell and the text are stored
    as 0. *)
Lemma engagements_after_coercion_witness :
  Forall2 stored_engagement sample_df
    (map (fun rz => set_Engagements (snd rz) (fst rz))
       (combine sample_df [150; 0; 7; 0; 3])).
Proof.
  apply engagements_after_coercion. vm_compute. reflexivity.
Defined.

(** C3 as stated fails on a cell holding a negative number: the stored
    engagement is negative. *)
Lemma engagements_negative :
  exists r f,
    clean parse_iso_date negative_df = Ok (r, f)
    /\ map Engagements f = [-5]
    /\ ~ Forall (fun x => 0 <= Engagements x) f.
Proof.
  eexists. eexists. split; [vm_compute; reflexivity |].
  split; [reflexivity |].
  intros H. inversion H as [| x l X _]. cbn in X. lia.
Qed.

(** C7, as amended.  When cleaning completes with no row left, the run
    ends in the warning of line 87: no exception, no table and no
    insight are produced, and each of the five tables and insight lists
    computed on the empty cleaned frame is empty. *)
Theorem no_valid_data (parse_datetime : list cell -> cell -> option Timestamp)
  (df : DataFrame) (r : CleaningReport) (f : Frame) :
  clean parse_datetime df = Ok (r, f) ->
  cleaned_rows r = 0 ->
  pipeline parse_datetime df = Warning r
  /\ f = []
  /\ build_dashboard f = empty_dashboard.
Proof.
  intros H Z0. unfold pipeline. rewrite H, Z0. cbn.
  destruct (clean_Ok _ _ _ _ H) as [df2 [_ [F R]]].
  rewrite R in Z0. cbn in Z0. apply len_nil_inv in Z0.
  split; [reflexivity | split; [exact Z0 |]]. rewrite Z0. reflexivity.
Qed.

(** The statement at [undated_df]. *)
Lemma no_valid_data_witness :
  pipeline parse_iso_date undated_df = Warning (mkReport 2 0 0 2)
  /\ @nil (row (option Timestamp) Z) = []
  /\ build_dashboard [] = empty_dashboard.
Proof.
  apply (no_valid_data parse_iso_date undated_df (mkReport 2 0 0 2) []);
    vm_compute; reflexivity.
Defined.

(** C7 as stated fails on a frame none of whose dates can be read and
    one of whose engagements is infinite: no row would be left, yet the
    cast of line 73 raises before the rows are dropped, and the run ends
    in the error message. *)
Lemma no_valid_data_infinite :
  dropna_Date (coerce_dates parse_iso_date infinite_undated_df) = []
  /\ clean parse_iso_date infinite_undated_df = Raise IntCastingNaNError
  /\ pipeline parse_iso_date infinite_undated_df = Error IntCastingNaNError
  /\ forall r, pipeline parse_iso_date infinite_undated_df <> Warning r.
Proof.
  repeat split. intros r H. discriminate H.
Qed.




(** ** Totals of the aggregate tables *)

Lemma total_cons {K} (x : K * Z) (t : table K) : total (x :: t) = snd x + total t.
Proof. reflexivity. Qed.

Lemma total_insert_desc {K} (x : K * Z) (t : table K) :
  total (insert_desc x t) = snd x + total t.
Proof.
  induction t as [| y t IH]; [reflexivity |].
  cbn [insert_desc]. destruct (snd y <=? snd x); [reflexivity |].
  rewrite !total_cons, IH. lia.
Qed.

Lemma total_sort_values_desc {K} (t : table K) :
  total (sort_values_desc t) = total t.
Proof.
  induction t as [| x t IH]; [reflexivity |].
  cbn [sort_values_desc fold_right]. fold (sort_values_desc t).
  rewrite total_insert_desc, IH. reflexivity.
Qed.

Lemma total_tally (k : cell) (t : table cell) : total (tally k t) = 1 + total t.
Proof.
  induction t as [| [k' n] t IH]; [reflexivity |].
  cbn [tally]. destruct (key_eqb k k'); rewrite !total_cons; cbn [snd]; lia.
Qed.

(** ** Sums of 64-bit integers *)

Lemma wrap64_int64 (z : Z) : int64 (wrap64 z).
Proof. unfold int64, wrap64. Z.to_euclidean_division_equations. lia. Qed.

Lemma wrap64_id (z : Z) : int64 z -> wrap64 z = z.
Proof. unfold int64, wrap64. intros H. Z.to_euclidean_division_equations. lia. Qed.

Lemma wrap64_add_l (a b : Z) : wrap64 (wrap64 a + b) = wrap64 (a + b).
Proof. unfold wrap64. Z.to_euclidean_division_equations. lia. Qed.

Lemma wrap64_congr (a b c : Z) : wrap64 a = wrap64 b -> wrap64 (c + a) = wrap64 (c + b).
Proof. unfold wrap64. intros H. Z.to_euclidean_division_equations. lia. Qed.

Lemma total_add_group {K} (cmp : K -> K -> comparison) (k : K) (v : Z) (t : table K) :
  wrap64 (total (add_group cmp k v t)) = wrap64 (v + total t).
Proof.
  induction t as [| [k' n] t IH]; [reflexivity |].
  cbn [add_group]. destruct (cmp k k'); rewrite !total_cons; cbn [snd].
  - rewrite wrap64_add_l. f_equal. lia.
  - f_equal.
  - rewrite (wrap64_congr _ _ n IH). f_equal. lia.
Qed.

(** The counts of a column sum to the number of its entries that are
    not missing. *)
Lemma total_value_counts (col : list cell) :
  total (value_counts col) = count (fun c => negb (isnull c)) col.
Proof.
  unfold value_counts. rewrite total_sort_values_desc.
  assert (G : forall t,
             total (fold_left
                      (fun t c => match key_of c with Some k => tally k t | None => t end)
                      col t)
             = total t + count (fun c => negb (isnull c)) col).
  { induction col as [| c col IH]; intros t.
    - cbn [fold_left]. change (count (fun c => negb (isnull c)) []) with 0. lia.
    - cbn [fold_left]. rewrite IH, count_cons. unfold key_of.
      destruct (isnull c); cbn [negb]; [lia | rewrite total_tally; lia]. }
  rewrite G. reflexivity.
Qed.

Lemma sum_keyed_cons {K} (kv : option K * Z) (keyed : list (option K * Z)) :
  sum_keyed (kv :: keyed)
  = match fst kv with Some _ => snd kv + sum_keyed keyed | None => sum_keyed keyed end.
Proof. reflexivity. Qed.

(** The sums of the groups add up to the sum of the metric, as 64-bit
    integers. *)
Lemma total_groupby_sum {K} (cmp : K -> K -> comparison) (keyed : list (option K * Z)) :
  wrap64 (total (groupby_sum cmp keyed)) = wrap64 (sum_keyed keyed).
Proof.
  unfold groupby_sum.
  assert (G : forall t,
             wrap64 (total (fold_left
                              (fun t kv => match fst kv with
                                           | Some k => add_group cmp k (snd kv) t
                                           | None => t
                                           end) keyed t))
             = wrap64 (total t + sum_keyed keyed)).
  { induction keyed as [| [k v] keyed IH]; intros t.
    - cbn [fold_left sum_keyed fold_right]. f_equal. lia.
    - cbn [fold_left]. rewrite IH, sum_keyed_cons. cbn [fst snd].
      destruct k as [k |]; [| reflexivity].
      rewrite Z.add_comm, (wrap64_congr _ _ _ (total_add_group cmp k v t)).
      f_equal. lia. }
  rewrite G. reflexivity.
Qed.

Lemma total_abs_cons {K} (x : K * Z) (t : table K) :
  total_abs (x :: t) = Z.abs (snd x) + total_abs t.
Proof. reflexivity. Qed.

Lemma total_abs_nonneg {K} (t : table K) : 0 <= total_abs t.
Proof. induction t as [| x t IH]; [cbn; lia | rewrite total_abs_cons; lia]. Qed.

Lemma abs_keyed_cons {K} (kv : option K * Z) (keyed : list (option K * Z)) :
  abs_keyed (kv :: keyed) = Z.abs (snd kv) + abs_keyed keyed.
Proof. reflexivity. Qed.

Lemma abs_keyed_nonneg {K} (keyed : list (option K * Z)) : 0 <= abs_keyed keyed.
Proof. induction keyed as [| x t IH]; [cbn; lia | rewrite abs_keyed_cons; lia]. Qed.

(** While the magnitudes stay below [2 ^ 63] no sum of a group wraps. *)
Lemma total_add_group_exact {K} (cmp : K -> K -> comparison) (k : K) (v : Z) (t : table K) :
  total_abs t + Z.abs v < 2 ^ 63 ->
  total (add_group cmp k v t) = v + total t
  /\ total_abs (add_group cmp k v t) <= total_abs t + Z.abs v.
Proof.
  induction t as [| [k' n] t IH]; [cbn; lia |].
  rewrite total_abs_cons. cbn [snd]. pose proof (total_abs_nonneg t) as P. intros B.
  cbn [add_group]. destruct (cmp k k');
    rewrite ?total_cons, ?total_abs_cons; cbn [snd].
  - rewrite wrap64_id by (unfold int64; lia). lia.
  - lia.
  - destruct IH as [IH1 IH2]; [lia |]. rewrite IH1. lia.
Qed.

Lemma total_groupby_sum_exact {K} (cmp : K -> K -> comparison)
  (keyed : list (option K * Z)) :
  abs_keyed keyed < 2 ^ 63 -> total (groupby_sum cmp keyed) = sum_keyed keyed.
Proof.
  unfold groupby_sum.
  assert (G : forall t,
             total_abs t + abs_keyed keyed < 2 ^ 63 ->
             total (fold_left
                      (fun t kv => match fst kv with
                                   | Some k => add_group cmp k (snd kv) t
                                   | None => t
                                   end) keyed t)
             = total t + sum_keyed keyed).
  { induction keyed as [| [k v] keyed IH]; intros t B.
    - cbn [fold_left sum_keyed fold_right]. lia.
    - rewrite abs_keyed_cons in B. cbn [snd] in B.
      pose proof (abs_keyed_nonneg keyed) as P.
      cbn [fold_left]. rewrite sum_keyed_cons. cbn [fst snd].
      destruct k as [k |].
      + destruct (total_add_group_exact cmp k v t) as [E1 E2]; [lia |].
        rewrite IH by lia. lia.
      + rewrite IH by lia. reflexivity. }
  intros B. rewrite G by (cbn; lia). reflexivity.
Qed.

Lemma abs_keyed_map {K} (key : row (option Timestamp) Z -> option K) (df : Frame) :
  abs_keyed (map (fun r => (key r, Engagements r)) df) = sum_abs df.
Proof.
  induction df as [| r df IH]; [reflexivity |].
  cbn [map]. rewrite abs_keyed_cons, IH. reflexivity.
Qed.

Lemma sum_keyed_with_key (col : row (option Timestamp) Z -> cell) (df : Frame) :
  sum_keyed (map (fun r => (key_of (col r), Engagements r)) df)
  = sum_engagements (with_key col df).
Proof.
  induction df as [| r df IH]; [reflexivity |].
  cbn [map sum_keyed fold_right fst snd with_key filter].
  fold (sum_keyed (map (fun r => (key_of (col r), Engagements r)) df)).
  fold (with_key col df). rewrite IH. unfold key_of.
  destruct (isnull (col r)); reflexivity.
Qed.

Lemma sum_keyed_dates (df : Frame) :
  sum_keyed (map (fun r => (option_map ts_date (Date r), Engagements r)) (dropna_Date df))
  = sum_engagements (dropna_Date df).
Proof.
  induction df as [| r df IH]; [reflexivity |].
  unfold dropna_Date in *. cbn [filter].
  destruct (notnull_Date r) eqn:N; [| exact IH].
  unfold notnull_Date in N. destruct (Date r) as [d |] eqn:E; [| discriminate N].
  cbn [map sum_keyed sum_engagements fold_right fst snd].
  rewrite E. cbn [option_map]. f_equal. exact IH.
Qed.

Lemma with_key_all (col : row (option Timestamp) Z -> cell) (df : Frame) :
  (forall r, In r df -> isnull (col r) = false) -> with_key col df = df.
Proof.
  intros H. unfold with_key. induction df as [| r df IH]; [reflexivity |].
  cbn [filter]. rewrite (H r (or_introl eq_refl)). cbn [negb].
  f_equal. apply IH. intros x Hx. apply H. right. exact Hx.
Qed.

(** C2, as amended.  On every cleaned frame the counts of the sentiment
    and media type tables each sum to the number of cleaned rows whose
    sentiment, respectively media type, is not missing.  The sums by
    date sum to the total of [Engagements] over all cleaned rows, and
    the sums by platform and the sums by location before the cut to five
    each sum to the total of [Engagements] over the cleaned rows whose
    platform, respectively location, is not missing: as 64-bit integers
    always, and as integers whenever the magnitudes of the engagements
    add up to less than [2 ^ 63], so that no sum wraps.  Where a column
    has no missing cell these are the cleaned row count and the total of
    [Engagements]. *)
Theorem aggregate_totals (df : Frame) :
  let cleaned := dropna_Date df in
  total (sentiment_counts cleaned) = len (with_key Sentiment cleaned)
  /\ total (media_type_counts cleaned) = len (with_key Media_Type cleaned)
  /\ wrap64 (total (engagement_by_date cleaned)) = wrap64 (sum_engagements cleaned)
  /\ wrap64 (total (platform_engagements cleaned))
     = wrap64 (sum_engagements (with_key Platform cleaned))
  /\ wrap64 (total (location_sums cleaned))
     = wrap64 (sum_engagements (with_key Location cleaned))
  /\ (sum_abs cleaned < 2 ^ 63 ->
      total (engagement_by_date cleaned) = sum_engagements cleaned
      /\ total (platform_engagements cleaned) = sum_engagements (with_key Platform cleaned)
      /\ total (location_sums cleaned) = sum_engagements (with_key Location cleaned))
  /\ (forall col, (forall r, In r cleaned -> isnull (col r) = false) ->
      with_key col cleaned = cleaned).
Proof.
  intros cleaned. subst cleaned.
  split; [unfold sentiment_counts; rewrite total_value_counts, count_map; reflexivity |].
  split; [unfold media_type_counts; rewrite total_value_counts, count_map; reflexivity |].
  split; [unfold engagement_by_date; rewrite total_groupby_sum, sum_keyed_dates;
          reflexivity |].
  split; [unfold platform_engagements, platform_sums;
          rewrite total_sort_values_desc, total_groupby_sum, sum_keyed_with_key;
          reflexivity |].
  split; [unfold location_sums; rewrite total_groupby_sum, sum_keyed_with_key;
          reflexivity |].
  split; [| intros col; apply with_key_all].
  intros B. split; [| split].
  - unfold engagement_by_date.
    rewrite total_groupby_sum_exact by (rewrite abs_keyed_map; exact B).
    apply sum_keyed_dates.
  - unfold platform_engagements, platform_sums. rewrite total_sort_values_desc.
    rewrite total_groupby_sum_exact by (rewrite abs_keyed_map; exact B).
    apply sum_keyed_with_key.
  - unfold location_sums.
    rewrite total_groupby_sum_exact by (rewrite abs_keyed_map; exact B).
    apply sum_keyed_with_key.
Qed.

(** C2 as stated fails on a frame with a row that misses its sentiment
    and its platform: the row is cleaned, and it is in neither table.
    It also fails on a frame whose engagements add up to [2 ^ 63]: the
    sum of the platform wraps to [- 2 ^ 63]. *)
Lemma aggregate_totals_counterexamples :
  (exists r f,
     clean parse_iso_date missing_keys_df = Ok (r, f)
     /\ cleaned_rows r = 2
     /\ total (sentiment_counts f) = 1
     /\ sum_engagements f = 15
     /\ total (platform_engagements f) = 10
     /\ total (sentiment_counts f) <> cleaned_rows r
     /\ total (platform_engagements f) <> sum_engagements f)
  /\ (exists r f,
        clean parse_iso_date overflow_df = Ok (r, f)
        /\ platform_engagements f = [ (CStr "A", - 2 ^ 63) ]
        /\ sum_engagements f = 2 ^ 63
        /\ total (platform_engagements f) <> sum_engagements f).
Proof.
  split.
  - eexists. eexists. split; [vm_compute; reflexivity |].
    repeat split; vm_compute; discriminate.
  - eexists. eexists. split; [vm_compute; reflexivity |].
    repeat split; vm_compute; discriminate.
Qed.

(** ** The order of the sorted tables *)

Lemma insert_desc_Permutation {K} (x : K * Z) (t : table K) :
  Permutation (x :: t) (insert_desc x t).
Proof.
  induction t as [| y t IH]; [apply Permutation_refl |].
  cbn [insert_desc]. destruct (snd y <=? snd x); [apply Permutation_refl |].
  eapply perm_trans; [apply perm_swap | apply perm_skip, IH].
Qed.

Lemma sort_values_desc_Permutation {K} (t : table K) :
  Permutation t (sort_values_desc t).
Proof.
  induction t as [| x t IH]; [apply perm_nil |].
  cbn [sort_values_desc fold_right]. fold (sort_values_desc t).
  eapply perm_trans; [apply perm_skip, IH | apply insert_desc_Permutation].
Qed.

Lemma insert_desc_sorted {K} (x : K * Z) (t : table K) :
  StronglySorted desc t -> StronglySorted desc (insert_desc x t).
Proof.
  induction 1 as [| y t S IH F]; [repeat constructor |].
  cbn [insert_desc]. destruct (snd y <=? snd x) eqn:C.
  - apply Z.leb_le in C. constructor; [constructor; assumption |].
    constructor; [exact C |].
    eapply Forall_impl; [| exact F]. unfold desc. intros z Hz. lia.
  - apply Z.leb_gt in C. constructor; [exact IH |].
    eapply Permutation_Forall; [apply insert_desc_Permutation |].
    constructor; [unfold desc; lia | exact F].
Qed.

Lemma sort_values_desc_sorted {K} (t : table K) :
  StronglySorted desc (sort_values_desc t).
Proof.
  induction t as [| x t IH]; [constructor |].
  cbn [sort_values_desc fold_right]. apply insert_desc_sorted, IH.
Qed.

Lemma sorted_app {A} (R : A -> A -> Prop) (l1 l2 : list A) :
  StronglySorted R (l1 ++ l2) ->
  StronglySorted R l1 /\ forall x y, In x l1 -> In y l2 -> R x y.
Proof.
  induction l1 as [| a l1 IH]; cbn [app]; intros H.
  - split; [constructor | intros x y []].
  - inversion H as [| ? ? S F]; subst. destruct (IH S) as [S1 X].
    split.
    + constructor; [exact S1 |].
      apply Forall_forall. intros z Hz.
      rewrite Forall_forall in F. apply F. apply in_or_app. left. exact Hz.
    + intros x y [<- | Hx] Hy.
      * rewrite Forall_forall in F. apply F. apply in_or_app. right. exact Hy.
      * apply X; assumption.
Qed.

(** C10.  The top-locations table has at most five rows; its rows stand
    in non-increasing order of their sums; it is the head of the location
    sums sorted in descending order, which hold every location once, and
    no row left out has a greater sum than a row kept. *)
Theorem top_locations (df : Frame) :
  let full := sort_values_desc (location_sums df) in
  let top := engagements_by_location df in
  (List.length top <= 5)%nat
  /\ StronglySorted desc top
  /\ full = top ++ skipn 5 full
  /\ StronglySorted desc full
  /\ Permutation (location_sums df) full
  /\ (forall x y, In x top -> In y (skipn 5 full) -> snd y <= snd x).
Proof.
  intros full top.
  assert (E : full = top ++ skipn 5 full)
    by (symmetry; apply firstn_skipn).
  pose proof (sort_values_desc_sorted (location_sums df)) as S.
  fold full in S. rewrite E in S. apply sorted_app in S. destruct S as [S1 X].
  split; [apply firstn_le_length |].
  split; [exact S1 |].
  split; [exact E |].
  split; [apply sort_values_desc_sorted |].
  split; [apply sort_values_desc_Permutation |].
  exact X.
Qed.

(** ** The trend of the period *)

Lemma Qltb_lt (a b : Q) : Qltb a b = true <-> (a < b)%Q.
Proof.
  unfold Qltb. rewrite negb_true_iff. split.
  - intros H. apply Qnot_le_lt. intros L. apply Qle_bool_iff in L. congruence.
  - intros H. destruct (Qle_bool b a) eqn:E; [| reflexivity].
    apply Qle_bool_iff in E. exfalso. exact (Qlt_not_le _ _ H E).
Qed.




(** The product of line 149 is rounded: from -100 to -110 the last total
    is not above the first by a tenth, and it is above the product
    [-100 * 1.1] as a double, which is just below -110. *)
Example trend_rounded_product :
  trend (-100) (-110) = UpwardTrend
  /\ ~ (inject_Z (-100) * 1.1 < inject_Z (-110))%Q.
Proof.
  split; [vm_compute; reflexivity |]. intros H. vm_compute in H. discriminate H.
Qed.

(** ** The platform comparison *)

Lemma percentage_difference_zero (most : Z) : percentage_difference most 0 = PInf.
Proof. reflexivity. Qed.


(** With a zero sum at rank 2 the comparison is worded "more", with the
    infinite difference. *)
Lemma platform_comparison_zero (most second : cell * Z) (rest : table cell) :
  snd second = 0 ->
  In (PlatformComparison (fst most) (MoreBy PInf) (fst second))
     (platform_insights (most :: second :: rest)).
Proof.
  intros Z0. unfold platform_insights. apply in_or_app. right.
  apply in_or_app. left. rewrite Z0, percentage_difference_zero. left. reflexivity.
Qed.

(** C5, evaluated on the aggregate [{A,100},{B,0}].  Line 178 yields the
    infinite difference and the test of line 179 picks the wording
    "more"; the sentence of line 179 is what the source fails to build
    (see [phrase]). *)
Example platform_zero_divisor :
  platform_insights [ (CStr "A", 100); (CStr "B", 0) ]
  = [ MostEngagingPlatform (CStr "A") 100;
      PlatformComparison (CStr "A") (MoreBy PInf) (CStr "B") ].
Proof. reflexivity. Qed.

(** ** Running the pipeline on a cleaned frame *)

Lemma count_zero {A} (p : A -> bool) (l : list A) :
  Forall (fun a => p a = false) l -> count p l = 0.
Proof.
  induction 1 as [| a l Ha _ IH]; [reflexivity |].
  rewrite count_cons, Ha, IH. reflexivity.
Qed.

Lemma filter_all {A} (p : A -> bool) (l : list A) :
  Forall (fun a => p a = true) l -> filter p l = l.
Proof.
  induction 1 as [| a l Ha _ IH]; [reflexivity |].
  cbn [filter]. rewrite Ha, IH. reflexivity.
Qed.

Lemma dropna_Date_notnull {E} (df : list (row (option Timestamp) E)) :
  Forall (fun c => notnull_Date c = true) (dropna_Date df).
Proof.
  apply Forall_forall. intros c H. apply filter_In in H. exact (proj2 H).
Qed.

Lemma Forall2_Forall_l {A B} (R : A -> B -> Prop) (P : A -> Prop) (Q : B -> Prop)
  (l : list A) (l' : list B) :
  (forall a b, R a b -> Q b -> P a) ->
  Forall2 R l l' -> Forall Q l' -> Forall P l.
Proof.
  intros X H. induction H as [| a b l l' Hab _ IH]; intros F; [constructor |].
  inversion F; subst. constructor; [eapply X; eassumption | apply IH; assumption].
Qed.

Lemma Forall2_Forall_r {A B} (R : A -> B -> Prop) (P : A -> Prop) (Q : B -> Prop)
  (l : list A) (l' : list B) :
  (forall a b, R a b -> P a -> Q b) ->
  Forall2 R l l' -> Forall P l -> Forall Q l'.
Proof.
  intros X H. induction H as [| a b l l' Hab _ IH]; intros F; [constructor |].
  inversion F; subst. constructor; [eapply X; eassumption | apply IH; assumption].
Qed.

(** The frame that cleaning returns holds 64-bit integers. *)
Lemma clean_int64 (parse_datetime : list cell -> cell -> option Timestamp)
  (df : DataFrame) (r : CleaningReport) (f : Frame) :
  clean parse_datetime df = Ok (r, f) -> int64_frame f.
Proof.
  intros H. destruct (clean_Ok _ _ _ _ H) as [df2 [C [-> _]]].
  apply Forall_forall. intros x Hx. apply filter_In in Hx. destruct Hx as [Hx _].
  assert (A : Forall (fun x : row (option Timestamp) Z => int64 (Engagements x)) df2).
  { eapply (Forall2_Forall_r _ (fun _ => True)); [| exact C |].
    - intros a b [Cab _] _. exact (convert_engagement_int64 _ _ Cab).
    - apply Forall_forall. intros; exact I. }
  rewrite Forall_forall in A. exact (A x Hx).
Qed.

Lemma holds_row_coerced (parse_datetime : list cell -> cell -> option Timestamp)
  (col : list cell) (r : row cell cell) (c : row (option Timestamp) Z) :
  int64 (Engagements c) ->
  holds_row parse_datetime col r c ->
  engagement_coerced (set_Date (to_datetime parse_datetime col (Date r)) r) c.
Proof.
  intros I [D [E [P [S [L M]]]]]. split.
  - cbn. rewrite E. apply convert_engagement_CInt. exact I.
  - destruct c, r. cbn in *. subst. reflexivity.
Qed.

Lemma holds_frame_coerced (parse_datetime : list cell -> cell -> option Timestamp)
  (df : DataFrame) (f : Frame) :
  int64_frame f ->
  holds_frame parse_datetime df f ->
  Forall2 engagement_coerced (coerce_dates parse_datetime df) f.
Proof.
  unfold holds_frame, coerce_dates. generalize (map Date df) as col. intros col I H.
  induction H as [| r c l l' Hr _ IH]; [constructor |].
  inversion I as [| ? ? Ic Il]; subst.
  cbn [map]. constructor; [apply holds_row_coerced; assumption | exact (IH Il)].
Qed.

(** C9.  Let a run of the cleaning have produced the frame [f], and let
    [df'] hold [f]: dates that are coerced to those of [f], engagements
    the integers of [f].  Cleaning [df'] completes and produces [f]
    again: the cleaned row count is unchanged, no row is dropped, nothing
    is counted as invalid or missing, and the tables and insights shown
    are the same. *)
Theorem rerun_on_cleaned_output (parse_datetime : list cell -> cell -> option Timestamp)
  (df : DataFrame) (r : CleaningReport) (f : Frame) (df' : DataFrame) :
  clean parse_datetime df = Ok (r, f) ->
  holds_frame parse_datetime df' f ->
  exists r',
    clean parse_datetime df' = Ok (r', f)
    /\ cleaned_rows r' = cleaned_rows r
    /\ original_rows r' = cleaned_rows r
    /\ invalid_date_count r' = 0
    /\ missing_engagements_count r' = 0
    /\ dashboard_of (pipeline parse_datetime df')
       = dashboard_of (pipeline parse_datetime df).
Proof.
  intros H W.
  destruct (clean_Ok _ _ _ _ H) as [df2 [_ [F R]]].
  assert (N : Forall (fun c : row (option Timestamp) Z => notnull_Date c = true) f)
    by (rewrite F; apply dropna_Date_notnull).
  pose proof (holds_frame_coerced _ _ _ (clean_int64 _ _ _ _ H) W) as C.
  assert (E : clean parse_datetime df'
              = Ok (mkReport (len df') (len f)
                      (count (fun x => is_missing_engagement (Engagements x))
                         (coerce_dates parse_datetime df'))
                      (count isNaT (map Date (coerce_dates parse_datetime df'))
                       - count isnull (map Date df')), f)).
  { unfold clean. rewrite (proj2 (coerce_engagements_rows _ _) C). cbn [bind].
    unfold dropna_Date. rewrite (filter_all _ _ N). reflexivity. }
  eexists. split; [exact E |]. cbn.
  assert (L : len df' = len f).
  { rewrite <- (len_coerce_dates parse_datetime df'). symmetry.
    exact (Forall2_len _ _ _ C). }
  assert (Z1 : count isNaT (map Date (coerce_dates parse_datetime df')) = 0).
  { rewrite count_map. apply count_zero.
    eapply Forall2_Forall_l; [| exact C | exact N].
    intros a b Hab Hb. cbn beta in *. rewrite <- (engagement_coerced_Date _ _ Hab).
    unfold notnull_Date in Hb. destruct (Date b); [reflexivity | discriminate Hb]. }
  assert (Z2 : count isnull (map Date df') = 0).
  { rewrite count_map. apply count_zero.
    eapply Forall2_Forall_l; [| exact W | exact N].
    intros a b [D _] Hb. cbn beta in *. unfold notnull_Date in Hb.
    rewrite <- D in Hb. unfold to_datetime in Hb.
    destruct (isnull (Date a)); [discriminate Hb | reflexivity]. }
  assert (Z3 : count (fun x : row (option Timestamp) cell =>
                        is_missing_engagement (Engagements x))
                 (coerce_dates parse_datetime df') = 0).
  { unfold coerce_dates. rewrite count_map. apply count_zero.
    eapply Forall2_Forall_l; [| exact W | exact N].
    intros a b [_ [G _]] _. cbn. rewrite G. reflexivity. }
  rewrite R. cbn. rewrite Z1, Z2, Z3.
  repeat split; try (exact L); try reflexivity.
  unfold pipeline. rewrite H, E, R. cbn. rewrite L.
  destruct (len f =? 0); reflexivity.
Qed.

(** The statement at [cleaned_sample_df], which holds the cleaned frame
    of [sample_df]. *)
Lemma rerun_on_cleaned_output_witness :
  exists r',
    clean parse_iso_date cleaned_sample_df = Ok (r', sample_frame)
    /\ cleaned_rows r' = cleaned_rows sample_report
    /\ original_rows r' = cleaned_rows sample_report
    /\ invalid_date_count r' = 0
    /\ missing_engagements_count r' = 0
    /\ dashboard_of (pipeline parse_iso_date cleaned_sample_df)
       = dashboard_of (pipeline parse_iso_date sample_df).
Proof.
  apply (rerun_on_cleaned_output parse_iso_date sample_df sample_report sample_frame
           cleaned_sample_df).
  - vm_compute. reflexivity.
  - unfold holds_frame, holds_row. repeat constructor.
Defined.

(** * Further properties *)

(** ** When an upload ends in the error message *)

Lemma mapM_Exists_Raise {A B} (f : A -> result B) (l : list A) :
  Exists (fun a => exists e, f a = Raise e) l -> exists e, mapM f l = Raise e.
Proof.
  induction 1 as [a l [e Ha] | a l _ [e IH]]; cbn [mapM].
  - exists e. rewrite Ha. reflexivity.
  - destruct (f a) as [b | e']; cbn [bind]; [| exists e'; reflexivity].
    exists e. rewrite IH. reflexivity.
Qed.

Lemma infinite_engagement_raises (c : cell) :
  to_numeric c = PInf \/ to_numeric c = NInf ->
  convert_engagement c = Raise IntCastingNaNError.
Proof.
  unfold convert_engagement. intros [-> | ->]; reflexivity.
Qed.

(** X1.  If some engagement cell of the frame reads as an infinity,
    the upload ends in the error message, whether or not the row of
    that cell has a date that parses: the cast of line 73 runs on every
    row, before the rows without a date are dropped. *)
Theorem infinite_engagement_error (parse_datetime : list cell -> cell -> option Timestamp)
  (df : DataFrame) :
  Exists infinite_engagement df ->
  pipeline parse_datetime df = Error IntCastingNaNError.
Proof.
  intros H. unfold pipeline, clean.
  assert (R : exists e, coerce_engagements (coerce_dates parse_datetime df) = Raise e).
  { unfold coerce_engagements, coerce_dates. apply mapM_Exists_Raise.
    apply Exists_map. eapply Exists_impl; [| exact H].
    intros r I. cbn. rewrite (infinite_engagement_raises _ I).
    exists IntCastingNaNError. reflexivity. }
  destruct R as [[] ->]. reflexivity.
Qed.

(** The statement at [infinite_undated_df], whose only row has no date
    that parses. *)
Lemma infinite_engagement_error_witness :
  pipeline parse_iso_date infinite_undated_df = Error IntCastingNaNError.
Proof.
  apply (infinite_engagement_error parse_iso_date infinite_undated_df).
  left. left. reflexivity.
Defined.

(** ** Cells counted as missing or invalid *)

Lemma is_space_lower (a : ascii) : is_space (lower a) = is_space a.
Proof. destruct a as [[] [] [] [] [] [] [] []]; reflexivity. Qed.

Lemma is_c_space_lower (a : ascii) : is_c_space (lower a) = is_c_space a.
Proof. destruct a as [[] [] [] [] [] [] [] []]; reflexivity. Qed.

Lemma underscore_lower (a : ascii) :
  Ascii.eqb (lower a) "_"%char = Ascii.eqb a "_"%char.
Proof. destruct a as [[] [] [] [] [] [] [] []]; reflexivity. Qed.

Lemma digit_not_underscore (a : ascii) :
  is_digit a = true -> Ascii.eqb a "_"%char = false.
Proof. destruct a as [[] [] [] [] [] [] [] []]; intros H; try discriminate H; reflexivity. Qed.

Lemma exponent_mark_not_underscore (a : ascii) :
  Ascii.eqb (lower a) "e"%char = true -> Ascii.eqb a "_"%char = false.
Proof. destruct a as [[] [] [] [] [] [] [] []]; intros H; try discriminate H; reflexivity. Qed.

Lemma skip_spaces_id (l : list ascii) :
  Forall (fun a => is_c_space a = false) l -> skip_spaces l = l.
Proof.
  intros H. destruct H as [| a l Ha _]; [reflexivity |].
  cbn [skip_spaces]. rewrite Ha. reflexivity.
Qed.

Lemma trim_id (l : list ascii) :
  Forall (fun a => is_c_space a = false) l -> trim l = l.
Proof.
  intros H. unfold trim. rewrite (skip_spaces_id _ H).
  rewrite (skip_spaces_id _ (Forall_rev H)). apply rev_involutive.
Qed.

Lemma skip_spaces_In (l : list ascii) (a : ascii) :
  In a l -> is_c_space a = false -> In a (skip_spaces l).
Proof.
  intros H N. induction l as [| b l IH]; [destruct H |].
  cbn [skip_spaces]. destruct (is_c_space b) eqn:B; [| exact H].
  destruct H as [-> | H]; [congruence | exact (IH H)].
Qed.

Lemma trim_In (l : list ascii) (a : ascii) :
  In a l -> is_c_space a = false -> In a (trim l).
Proof.
  intros H N. unfold trim. apply in_rev. rewrite rev_involutive.
  apply skip_spaces_In; [| exact N]. apply in_rev. rewrite rev_involutive.
  apply skip_spaces_In; assumption.
Qed.

(** A text without an underscore has no digit separator to drop. *)
Lemma drop_underscores_id (l : list ascii) :
  forall prev,
    Ascii.eqb prev "_"%char = false ->
    Forall (fun a => Ascii.eqb a "_"%char = false) l ->
    drop_underscores prev l = Some l.
Proof.
  induction l as [| c l IH]; intros prev P F; cbn [drop_underscores].
  - rewrite P. reflexivity.
  - inversion F as [| ? ? Fc Fl]; subst. rewrite Fc, P. cbn [andb].
    rewrite (IH c Fc Fl). reflexivity.
Qed.

Lemma lowered_Forall (P : ascii -> bool) (l : list ascii) (name : string) :
  (forall a, P (lower a) = P a) ->
  string_of_list_ascii (map lower l) = name ->
  Forall (fun a => P a = false) (list_ascii_of_string name) ->
  Forall (fun a => P a = false) l.
Proof.
  intros L <-. rewrite list_ascii_of_string_of_list_ascii.
  intros H. apply Forall_forall. intros a Ha.
  rewrite Forall_forall in H. rewrite <- L.
  apply H. apply in_map. exact Ha.
Qed.

Lemma infinity_name_Forall (P : ascii -> bool) (l : list ascii) :
  (forall a, P (lower a) = P a) ->
  Forall (fun a => P a = false) (list_ascii_of_string "infinity") ->
  is_infinity_name l = true -> Forall (fun a => P a = false) l.
Proof.
  intros L F. unfold is_infinity_name. intros H. apply orb_true_iff in H.
  destruct H as [H | H]; apply String.eqb_eq in H; apply (lowered_Forall P _ _ L H).
  - cbn in F |- *. inversion F as [| ? ? Fi F1]; inversion F1 as [| ? ? Fn F2];
      inversion F2 as [| ? ? Ff _]; subst. repeat constructor; assumption.
  - exact F.
Qed.

Lemma read_sign_Forall (P : ascii -> bool) (l l' : list ascii) (neg : bool) :
  P "-"%char = false -> P "+"%char = false ->
  read_sign l = (neg, l') ->
  Forall (fun a => P a = false) l' ->
  Forall (fun a => P a = false) l.
Proof.
  intros M Pl R H. destruct l as [| a l0]; [constructor |].
  destruct a as [[] [] [] [] [] [] [] []]; cbn in R; injection R as _ <-;
    first [ exact H | constructor; assumption ].
Qed.

Lemma read_digits_split (l : list ascii) :
  forall acc n v m rest,
    read_digits l acc n = (v, m, rest) ->
    exists ds, l = ds ++ rest /\ Forall (fun a => is_digit a = true) ds.
Proof.
  induction l as [| a l IH]; intros acc n v m rest; cbn [read_digits].
  - intros E. injection E as _ _ <-. exists []. split; [reflexivity | constructor].
  - destruct (digit_of a) as [d |] eqn:D.
    + intros E. destruct (IH _ _ _ _ _ E) as [ds [-> F]]. exists (a :: ds).
      split; [reflexivity |].
      constructor; [unfold is_digit; rewrite D; reflexivity | exact F].
    + intros E. injection E as _ _ <-. exists []. split; [reflexivity | constructor].
Qed.

Lemma digits_no_underscore (ds : list ascii) :
  Forall (fun a => is_digit a = true) ds ->
  Forall (fun a => Ascii.eqb a "_"%char = false) ds.
Proof. apply Forall_impl. exact digit_not_underscore. Qed.

Lemma read_exponent_chars (l : list ascii) (e : Z) :
  read_exponent l = Some e -> Forall (fun a => Ascii.eqb a "_"%char = false) l.
Proof.
  unfold read_exponent. destruct l as [| a l']; [constructor |].
  destruct (Ascii.eqb (lower a) "e"%char) eqn:E; [| discriminate].
  destruct (read_sign l') as [neg l1] eqn:S.
  destruct (read_digits l1 0 0) as [[v m] rest] eqn:R.
  destruct m as [| m]; [discriminate |]. destruct rest; [| discriminate]. intros _.
  constructor; [exact (exponent_mark_not_underscore a E) |].
  apply (read_sign_Forall (fun a => Ascii.eqb a "_"%char) _ _ _ eq_refl eq_refl S).
  destruct (read_digits_split _ _ _ _ _ _ R) as [ds [-> F]]. rewrite app_nil_r.
  exact (digits_no_underscore _ F).
Qed.

Lemma point_match {A} (l1 : list ascii) (X : list ascii -> A) (Y : A) :
  match l1 with "."%char :: l1' => X l1' | _ => Y end
  = match l1 with
    | a :: l1' => if Ascii.eqb a "."%char then X l1' else Y
    | [] => Y
    end.
Proof.
  destruct l1 as [| a l1']; [reflexivity |].
  destruct a as [[] [] [] [] [] [] [] []]; reflexivity.
Qed.

(** A literal that [to_numeric] reads holds no underscore. *)
Lemma read_number_chars (l : list ascii) (q : Q) :
  read_number l = Some q -> Forall (fun a => Ascii.eqb a "_"%char = false) l.
Proof.
  unfold read_number.
  destruct (read_digits l 0 0) as [[i ni] l1] eqn:R1.
  destruct (read_digits_split _ _ _ _ _ _ R1) as [ds1 [-> F1]].
  rewrite (point_match l1 (fun l1' => read_digits l1' i 0) (i, 0%nat, l1)).
  intros H. apply Forall_app. split; [exact (digits_no_underscore _ F1) |].
  destruct l1 as [| a l1']; [constructor |].
  destruct (Ascii.eqb a "."%char) eqn:Ea.
  - apply Ascii.eqb_eq in Ea. subst a.
    destruct (read_digits l1' i 0) as [[m nf] l2] eqn:R2.
    destruct (read_digits_split _ _ _ _ _ _ R2) as [ds2 [-> F2]].
    destruct (ni + nf)%nat; [discriminate H |].
    destruct (read_exponent l2) as [e |] eqn:X; [| discriminate H].
    constructor; [reflexivity |]. apply Forall_app.
    split; [exact (digits_no_underscore _ F2) | exact (read_exponent_chars _ _ X)].
  - destruct (ni + 0)%nat; [discriminate H |].
    destruct (read_exponent (a :: l1')) as [e |] eqn:X; [| discriminate H].
    exact (read_exponent_chars _ _ X).
Qed.

(** A string that [float] rejects is coerced to [nan] by [to_numeric]. *)
Lemma python_float_None_to_numeric (s : string) :
  python_float s = None -> to_numeric_str s = NaN.
Proof.
  unfold python_float, to_numeric_str. set (raw := list_ascii_of_string s).
  destruct (read_sign (trim raw)) as [neg l] eqn:S.
  destruct (read_number l) as [q |] eqn:N.
  - intros H. exfalso.
    pose proof (read_sign_Forall (fun a => Ascii.eqb a "_"%char) _ _ _ eq_refl eq_refl S
                  (read_number_chars _ _ N)) as T.
    assert (U : Forall (fun a => Ascii.eqb a "_"%char = false) raw).
    { apply Forall_forall. intros a Ha. destruct (Ascii.eqb a "_"%char) eqn:E; [| reflexivity].
      apply Ascii.eqb_eq in E. subst a.
      rewrite Forall_forall in T. exact (T _ (trim_In _ _ Ha eq_refl)). }
    rewrite (drop_underscores_id raw zero eq_refl U), S, N in H. discriminate H.
  - destruct (read_sign raw) as [neg' l'] eqn:S'.
    destruct (is_infinity_name l') eqn:I'; [| reflexivity].
    intros H. exfalso.
    assert (C : Forall (fun a => is_c_space a = false) raw).
    { apply (read_sign_Forall is_c_space _ _ _ eq_refl eq_refl S').
      apply infinity_name_Forall; [exact is_c_space_lower | repeat constructor | exact I']. }
    assert (U : Forall (fun a => Ascii.eqb a "_"%char = false) raw).
    { apply (read_sign_Forall (fun a => Ascii.eqb a "_"%char) _ _ _ eq_refl eq_refl S').
      apply (infinity_name_Forall (fun a => Ascii.eqb a "_"%char));
        [exact underscore_lower | repeat constructor | exact I']. }
    rewrite (trim_id _ C), S' in S. injection S as <- <-.
    rewrite (drop_underscores_id raw zero eq_refl U), (trim_id _ C), S', N, I' in H.
    discriminate H.
Qed.

(** X2.  Every cell that the loop of lines 62-71 counts as missing or
    invalid is stored as 0 by line 73: the count never includes a cell
    whose stored engagement is not 0, nor one that makes the cast raise. *)
Theorem counted_engagement_is_zero (c : cell) :
  is_missing_engagement c = true -> convert_engagement c = Ok 0.
Proof.
  unfold is_missing_engagement. destruct (isnull c) eqn:N.
  - intros _. apply blank_is_missing. left. exact N.
  - destruct c as [z | x | s]; try discriminate.
    destruct (String.eqb (strip s) "") eqn:B.
    + intros _. apply String.eqb_eq in B. apply blank_is_missing. right.
      exists s. split; [reflexivity | exact B].
    + destruct (python_float s) as [x |] eqn:P; [discriminate |]. intros _.
      unfold convert_engagement. cbn [to_numeric].
      rewrite (python_float_None_to_numeric s P). reflexivity.
Qed.

(** The statement at a cell holding text. *)
Lemma counted_engagement_is_zero_witness :
  convert_engagement (CStr "many") = Ok 0.
Proof.
  apply (counted_engagement_is_zero (CStr "many")). vm_compute. reflexivity.
Defined.

(** ** Files without a column *)

Lemma count_all {A} (p : A -> bool) (l : list A) :
  Forall (fun a => p a = true) l -> count p l = len l.
Proof.
  induction 1 as [| a l Ha _ IH]; [reflexivity |].
  rewrite count_cons, len_cons, Ha, IH. reflexivity.
Qed.

Lemma coerce_dates_all_NaT (parse_datetime : list cell -> cell -> option Timestamp)
  (df : DataFrame) :
  Forall (fun r => to_datetime parse_datetime (map Date df) (Date r) = None) df ->
  dropna_Date (coerce_dates parse_datetime df) = []
  /\ count isNaT (map Date (coerce_dates parse_datetime df)) = len df.
Proof.
  unfold coerce_dates. generalize (map Date df) as col. intros col H.
  induction H as [| r l Hr _ [IH1 IH2]]; [split; reflexivity |].
  cbn [map]. split.
  - unfold dropna_Date in *. cbn [filter]. unfold notnull_Date at 1.
    cbn [set_Date Date]. rewrite Hr. exact IH1.
  - rewrite count_cons, len_cons, IH2. cbn [set_Date Date]. rewrite Hr. reflexivity.
Qed.

(** X3.  When the file has no [Date] column, so that line 53 fills it
    with empty strings, the date parser rejects the empty string, and
    cleaning completes, which it does unless the cast of line 73 raises,
    every row is dropped: all rows are reported as skipped for an
    invalid date and the upload ends in the warning. *)
Theorem missing_date_column (parse_datetime : list cell -> cell -> option Timestamp)
  (df : DataFrame) (r : CleaningReport) (f : Frame) :
  Forall (fun x => Date x = CStr "") df ->
  parse_datetime (map Date df) (CStr "") = None ->
  clean parse_datetime df = Ok (r, f) ->
  f = []
  /\ cleaned_rows r = 0
  /\ invalid_date_count r = original_rows r
  /\ pipeline parse_datetime df = Warning r.
Proof.
  intros E P H.
  assert (N : Forall (fun x => to_datetime parse_datetime (map Date df) (Date x) = None) df).
  { eapply Forall_impl; [| exact E]. intros x ->. exact P. }
  destruct (coerce_dates_all_NaT _ _ N) as [D1 D2].
  assert (Z0 : count isnull (map Date df) = 0).
  { rewrite count_map. apply count_zero.
    eapply Forall_impl; [| exact E]. intros x ->. reflexivity. }
  destruct (clean_Ok _ _ _ _ H) as [df2 [C [F R]]].
  pose proof (dropna_coerced _ _ C) as K. rewrite D1, <- F in K.
  assert (Fn : f = []) by (inversion K; reflexivity).
  assert (R0 : cleaned_rows r = 0) by (rewrite R, Fn; reflexivity).
  split; [exact Fn | split; [exact R0 | split]].
  - rewrite R. cbn. rewrite D2, Z0. lia.
  - unfold pipeline. rewrite H, R0. reflexivity.
Qed.

(** The statement at [no_date_column_df]. *)
Lemma missing_date_column_witness :
  @nil (row (option Timestamp) Z) = []
  /\ cleaned_rows (mkReport 2 0 0 2) = 0
  /\ invalid_date_count (mkReport 2 0 0 2) = original_rows (mkReport 2 0 0 2)
  /\ pipeline parse_iso_date no_date_column_df = Warning (mkReport 2 0 0 2).
Proof.
  apply (missing_date_column parse_iso_date no_date_column_df (mkReport 2 0 0 2) []).
  - repeat constructor.
  - reflexivity.
  - vm_compute. reflexivity.
Defined.

(** X4.  When the file has no [Engagements] column, so that line 53
    fills it with empty strings, cleaning completes, every row is
    counted as missing its engagement, and every cleaned row has the
    engagement 0. *)
Theorem missing_engagements_column (parse_datetime : list cell -> cell -> option Timestamp)
  (df : DataFrame) :
  Forall (fun x => Engagements x = CStr "") df ->
  exists r f,
    clean parse_datetime df = Ok (r, f)
    /\ missing_engagements_count r = original_rows r
    /\ Forall (fun x => Engagements x = 0) f.
Proof.
  intros E.
  destruct (clean_completes parse_datetime df) as [r [f H]].
  { eapply Forall_impl; [| exact E]. intros x ->. exists (inject_Z 0). reflexivity. }
  exists r, f. split; [exact H |].
  destruct (clean_Ok _ _ _ _ H) as [df2 [C [F R]]]. split.
  - rewrite R. cbn. unfold coerce_dates. rewrite count_map. apply count_all.
    eapply Forall_impl; [| exact E]. intros x Ex. cbn. rewrite Ex. reflexivity.
  - pose proof (dropna_coerced _ _ C) as K. rewrite <- F in K.
    eapply (Forall2_Forall_r _ (fun x : row (option Timestamp) cell => Engagements x = CStr ""));
      [| exact K |].
    + intros a b [Cab _] Ea. rewrite Ea in Cab. cbn in Cab. congruence.
    + apply Forall_forall. intros x Hx. unfold dropna_Date, coerce_dates in Hx.
      apply filter_In in Hx. destruct Hx as [Hx _]. apply in_map_iff in Hx.
      destruct Hx as [y [<- Hy]]. rewrite Forall_forall in E. exact (E y Hy).
Qed.

(** The statement at [no_engagements_column_df]. *)
Lemma missing_engagements_column_witness :
  exists r f,
    clean parse_iso_date no_engagements_column_df = Ok (r, f)
    /\ missing_engagements_count r = original_rows r
    /\ Forall (fun x => Engagements x = 0) f.
Proof.
  apply (missing_engagements_column parse_iso_date no_engagements_column_df).
  repeat constructor.
Defined.

(** ** How many insights a table gets *)

Lemma len_ge_3 {A} (a b c : A) (l : list A) : (2 <? len (a :: b :: c :: l)) = true.
Proof. apply Z.ltb_lt. rewrite !len_cons. pose proof (len_nonneg l). lia. Qed.

Lemma len_ge_2 {A} (a b : A) (l : list A) : (1 <? len (a :: b :: l)) = true.
Proof. apply Z.ltb_lt. rewrite !len_cons. pose proof (len_nonneg l). lia. Qed.

(** X5.  No insight names a rank that the table does not have: the
    sentiment, platform and location lists hold one sentence per row up
    to three; the trend and media type lists are empty on an empty
    table, hold two sentences on a single row and three otherwise. *)
Theorem insight_counts (s p m l : table cell) (d : table date) :
  List.length (sentiment_insights s) = Nat.min (List.length s) 3
  /\ List.length (engagement_insights d)
     = match List.length d with O => O | 1 => 2 | _ => 3 end%nat
  /\ List.length (platform_insights p) = Nat.min (List.length p) 3
  /\ List.length (media_type_insights m)
     = match List.length m with O => O | 1 => 2 | _ => 3 end%nat
  /\ List.length (location_insights l) = Nat.min (List.length l) 3.
Proof.
  repeat split.
  - destruct s as [| a [| b [| c s]]]; try reflexivity.
    cbn [List.length]. rewrite Nat.min_r by lia. reflexivity.
  - destruct d as [| a [| b d]]; [reflexivity | reflexivity |].
    unfold engagement_insights. rewrite len_ge_2. reflexivity.
  - destruct p as [| a [| b [| c p]]]; try reflexivity.
    unfold platform_insights. rewrite len_ge_3.
    cbn [List.length]. rewrite Nat.min_r by lia. reflexivity.
  - destruct m as [| a [| b m]]; reflexivity.
  - destruct l as [| a [| b [| c l]]]; try reflexivity.
    unfold location_insights. rewrite len_ge_3.
    cbn [List.length]. rewrite Nat.min_r by lia. reflexivity.
Qed.

(** ** The peak of the period *)

Lemma idxmax_spec {K} (l : table K) :
  forall (best : K * Z) (before after : table K),
    Forall (fun e => snd e < snd best) before ->
    Forall (fun e => snd e <= snd best) after ->
    exists before' after',
      before ++ best :: after ++ l = before' ++ idxmax best l :: after'
      /\ Forall (fun e => snd e < snd (idxmax best l)) before'
      /\ Forall (fun e => snd e <= snd (idxmax best l)) after'.
Proof.
  induction l as [| x l IH]; intros best before after B A; cbn [idxmax].
  - exists before, after. rewrite app_nil_r. auto.
  - destruct (snd best <? snd x) eqn:C.
    + apply Z.ltb_lt in C.
      destruct (IH x (before ++ best :: after) []) as [b' [a' [E [B' A']]]].
      * apply Forall_app. split.
        -- eapply Forall_impl; [| exact B]. cbn. intros e He. lia.
        -- constructor; [exact C |].
           eapply Forall_impl; [| exact A]. cbn. intros e He. lia.
      * constructor.
      * exists b', a'. split; [| auto].
        rewrite <- E. cbn [app]. rewrite <- app_assoc. reflexivity.
    + apply Z.ltb_ge in C.
      destruct (IH best before (after ++ [x])) as [b' [a' [E [B' A']]]].
      * exact B.
      * apply Forall_app. split; [exact A | constructor; [exact C | constructor]].
      * exists b', a'. split; [| auto].
        rewrite <- E, <- app_assoc. reflexivity.
Qed.

(** X6.  The day named as the peak is a row of the table by date, no row
    has a greater total, and every earlier row has a smaller one: among
    days with the same greatest total the first is named. *)
Theorem peak_engagement (first : date * Z) (rest : table date) :
  let t := first :: rest in
  let peak := idxmax first rest in
  hd_error (engagement_insights t) = Some (PeakEngagement (fst peak) (snd peak))
  /\ exists before after,
       t = before ++ peak :: after
       /\ Forall (fun e => snd e < snd peak) before
       /\ Forall (fun e => snd e <= snd peak) after.
Proof.
  intros t peak. split; [reflexivity |].
  destruct (idxmax_spec rest first [] []) as [b [a [E [B A]]]]; try constructor.
  exists b, a. split; [exact E | split; assumption].
Qed.

(** ** The row a sorted table starts with *)

Lemma sorted_head_greatest {K} (t : table K) :
  match sort_values_desc t with
  | [] => t = []
  | h :: _ => In h t /\ Forall (fun e => snd e <= snd h) t
  end.
Proof.
  pose proof (sort_values_desc_Permutation t) as P.
  pose proof (sort_values_desc_sorted t) as S.
  destruct (sort_values_desc t) as [| h rest].
  - apply Permutation_sym, Permutation_nil in P. exact P.
  - split.
    + eapply Permutation_in; [apply Permutation_sym; exact P | left; reflexivity].
    + eapply Permutation_Forall; [apply Permutation_sym; exact P |].
      inversion S as [| ? ? _ F]; subst. constructor; [lia | exact F].
Qed.

(** X7.  The platform named the most engaging has the greatest sum of
    all platforms, and the location named the highest has the greatest
    sum of all locations, those cut from the top five included; when a
    table is empty no sum exists and it gets no insight. *)
Theorem leading_platform_and_location (df : Frame) :
  match platform_engagements df with
  | [] => platform_sums df = [] /\ platform_insights (platform_engagements df) = []
  | (k, v) :: _ =>
      hd_error (platform_insights (platform_engagements df))
      = Some (MostEngagingPlatform k v)
      /\ In (k, v) (platform_sums df)
      /\ Forall (fun e => snd e <= v) (platform_sums df)
  end
  /\ match engagements_by_location df with
     | [] => location_sums df = [] /\ location_insights (engagements_by_location df) = []
     | (k, v) :: _ =>
         hd_error (location_insights (engagements_by_location df))
         = Some (HighestEngagementLocation k v)
         /\ In (k, v) (location_sums df)
         /\ Forall (fun e => snd e <= v) (location_sums df)
     end.
Proof.
  split.
  - unfold platform_engagements.
    pose proof (sorted_head_greatest (platform_sums df)) as H.
    destruct (sort_values_desc (platform_sums df)) as [| [k v] rest].
    + split; [exact H | reflexivity].
    + split; [reflexivity | exact H].
  - unfold engagements_by_location.
    pose proof (sorted_head_greatest (location_sums df)) as H.
    destruct (sort_values_desc (location_sums df)) as [| [k v] rest].
    + split; [exact H | reflexivity].
    + cbn [firstn]. split; [reflexivity | exact H].
Qed.

(** ** The sign of the platform comparison *)




(** ** The order of keys *)

Lemma date_compare_eq (a b : date) : date_compare a b = Eq -> a = b.
Proof.
  destruct a as [y m d], b as [y' m' d']. unfold date_compare. cbn.
  destruct (Z.compare_spec y y'); try discriminate.
  destruct (Z.compare_spec m m'); try discriminate.
  destruct (Z.compare_spec d d'); try discriminate.
  intros _. subst. reflexivity.
Qed.

Lemma date_compare_lt (a b : date) :
  date_compare a b = Lt <->
  year a < year b
  \/ (year a = year b /\ (month a < month b \/ (month a = month b /\ day a < day b))).
Proof.
  unfold date_compare.
  destruct (Z.compare_spec (year a) (year b));
    destruct (Z.compare_spec (month a) (month b));
    destruct (Z.compare_spec (day a) (day b));
    split; intros X; try discriminate; try reflexivity; lia.
Qed.

Lemma date_order : key_order date_compare.
Proof.
  constructor.
  - intros a. unfold date_compare. rewrite !Z.compare_refl. reflexivity.
  - intros a b. unfold date_compare.
    rewrite (Z.compare_antisym (year a)), (Z.compare_antisym (month a)),
      (Z.compare_antisym (day a)).
    destruct (year a ?= year b), (month a ?= month b), (day a ?= day b); reflexivity.
  - intros a b c. rewrite !date_compare_lt. lia.
  - intros a b c E. apply date_compare_eq in E. subst. reflexivity.
Qed.

Lemma ascii_compare_refl (a : ascii) : Ascii.compare a a = Eq.
Proof. unfold Ascii.compare. apply N.compare_refl. Qed.

Lemma string_compare_refl (s : string) : String.compare s s = Eq.
Proof.
  induction s as [| a s IH]; [reflexivity |].
  cbn. rewrite ascii_compare_refl. exact IH.
Qed.

Lemma string_compare_trans (s t u : string) :
  String.compare s t = Lt -> String.compare t u = Lt -> String.compare s u = Lt.
Proof.
  revert t u. induction s as [| a s IH]; intros [| b t] [| c u]; cbn;
    try discriminate; try reflexivity.
  destruct (Ascii.compare a b) eqn:AB; try discriminate;
    destruct (Ascii.compare b c) eqn:BC; try discriminate; intros X Y.
  - apply Ascii.compare_eq_iff in AB. apply Ascii.compare_eq_iff in BC. subst.
    rewrite ascii_compare_refl. exact (IH _ _ X Y).
  - apply Ascii.compare_eq_iff in AB. subst. rewrite BC. reflexivity.
  - apply Ascii.compare_eq_iff in BC. subst. rewrite AB. reflexivity.
  - unfold Ascii.compare in *. rewrite N.compare_lt_iff in AB, BC.
    assert (L : (N_of_ascii a < N_of_ascii c)%N) by (eapply N.lt_trans; eassumption).
    apply N.compare_lt_iff in L. rewrite L. reflexivity.
Qed.

Lemma float_order : key_order float_compare.
Proof.
  constructor.
  - intros [q | | |]; cbn; try reflexivity. apply Qeq_alt. reflexivity.
  - intros [p | | |] [q | | |]; cbn; try reflexivity.
    symmetry. apply Qcompare_antisym.
  - intros [p | | |] [q | | |] [r | | |]; cbn; try discriminate; try reflexivity.
    rewrite <- !Qlt_alt. apply Qlt_trans.
  - intros [p | | |] [q | | |] [r | | |]; cbn; try discriminate; try reflexivity.
    intros E. apply Qeq_alt in E. rewrite E. reflexivity.
Qed.

Lemma cell_order : key_order key_compare.
Proof.
  destruct float_order as [FR FA FT FE].
  constructor.
  - intros [z | x | s]; cbv beta iota delta [key_compare];
      [apply FR | apply FR | apply string_compare_refl].
  - intros [z | x | s] [z' | x' | s']; cbv beta iota delta [key_compare];
      try reflexivity; try apply FA.
    apply String.compare_antisym.
  - intros [z | x | s] [z' | x' | s'] [z'' | x'' | s''];
      cbv beta iota delta [key_compare];
      try discriminate; try reflexivity; try apply FT.
    apply string_compare_trans.
  - intros [z | x | s] [z' | x' | s'] [z'' | x'' | s''];
      cbv beta iota delta [key_compare];
      try discriminate; try reflexivity; try apply FE.
    intros E. apply String.compare_eq_iff in E. subst. reflexivity.
Qed.

(** ** Grouping over an ordered key *)

Section Grouping.

Context {K : Type} (cmp : K -> K -> comparison).
Hypothesis order : key_order cmp.

Lemma same_refl (a : K) : same cmp a a = true.
Proof. unfold same. rewrite (cmp_refl cmp order). reflexivity. Qed.

Lemma same_sym (a b : K) : same cmp a b = same cmp b a.
Proof.
  unfold same. rewrite (cmp_antisym cmp order a b).
  destruct (cmp a b); reflexivity.
Qed.

Lemma same_eq_l (a b c : K) : cmp a b = Eq -> same cmp a c = same cmp b c.
Proof. intros E. unfold same. rewrite (cmp_eq_l cmp order a b c E). reflexivity. Qed.

Lemma lt_not_same (a b : K) : cmp a b = Lt -> same cmp b a = false.
Proof.
  intros L. unfold same. rewrite (cmp_antisym cmp order a b), L. reflexivity.
Qed.

Lemma gt_lt (a b : K) : cmp a b = Gt -> cmp b a = Lt.
Proof. intros G. rewrite (cmp_antisym cmp order a b), G. reflexivity. Qed.

Lemma lt_eq_r (a b c : K) : cmp a b = Lt -> cmp c b = Eq -> cmp a c = Lt.
Proof.
  intros L E. rewrite (cmp_antisym cmp order c a).
  rewrite (cmp_eq_l cmp order c b a E), (cmp_antisym cmp order a b), L. reflexivity.
Qed.

Lemma lookup_cons (e : K * Z) (t : table K) (k : K) :
  lookup cmp k (e :: t) = (if same cmp (fst e) k then snd e else 0) + lookup cmp k t.
Proof.
  unfold lookup. cbn [filter]. destruct (same cmp (fst e) k); [apply total_cons | lia].
Qed.

Lemma lookup_absent (k : K) (t : table K) :
  Forall (fun e => same cmp (fst e) k = false) t -> lookup cmp k t = 0.
Proof.
  induction 1 as [| e t He _ IH]; [reflexivity |].
  rewrite lookup_cons, He, IH. reflexivity.
Qed.

(** The sum a table holds for a group, after one more value: as 64-bit
    integers. *)
Lemma lookup_add_group (k0 k : K) (v : Z) (t : table K) :
  wrap64 (lookup cmp k0 (add_group cmp k v t))
  = wrap64 (lookup cmp k0 t + (if same cmp k k0 then v else 0)).
Proof.
  induction t as [| [k' s] t IH]; cbn [add_group].
  - rewrite lookup_cons. cbn [fst snd]. f_equal. lia.
  - destruct (cmp k k') eqn:C.
    + rewrite !lookup_cons. cbn [fst snd]. rewrite (same_eq_l k k' k0 C).
      destruct (same cmp k' k0); [| f_equal; lia].
      rewrite wrap64_add_l. f_equal. lia.
    + rewrite !lookup_cons. cbn [fst snd]. f_equal. lia.
    + rewrite !lookup_cons. rewrite (wrap64_congr _ _ _ IH). f_equal. lia.
Qed.

Lemma lookup_groupby_sum (k0 : K) (keyed : list (option K * Z)) :
  wrap64 (lookup cmp k0 (groupby_sum cmp keyed))
  = wrap64 (sum_keyed (filter (keyed_as cmp k0) keyed)).
Proof.
  unfold groupby_sum.
  assert (G : forall t,
             wrap64 (lookup cmp k0
                       (fold_left
                          (fun t kv => match fst kv with
                                       | Some k => add_group cmp k (snd kv) t
                                       | None => t
                                       end) keyed t))
             = wrap64 (lookup cmp k0 t + sum_keyed (filter (keyed_as cmp k0) keyed))).
  { induction keyed as [| [k v] keyed IH]; intros t.
    - cbn [fold_left filter sum_keyed fold_right]. f_equal. lia.
    - cbn [fold_left filter]. rewrite IH. unfold keyed_as at 2. cbn [fst snd].
      destruct k as [k |]; [| reflexivity].
      rewrite Z.add_comm, (wrap64_congr _ _ _ (lookup_add_group k0 k v t)).
      destruct (same cmp k k0); [rewrite sum_keyed_cons; cbn [fst snd] |];
        f_equal; lia. }
  rewrite G. reflexivity.
Qed.

Lemma add_group_int64 (k : K) (v : Z) (t : table K) :
  int64 v -> Forall (fun e => int64 (snd e)) t ->
  Forall (fun e => int64 (snd e)) (add_group cmp k v t).
Proof.
  intros V. induction 1 as [| [k' s] t He Ht IH]; cbn [add_group].
  - constructor; [exact V | constructor].
  - destruct (cmp k k').
    + constructor; [apply wrap64_int64 | exact Ht].
    + constructor; [exact V | constructor; assumption].
    + constructor; [exact He | exact IH].
Qed.

(** Every sum of a table of groups is a 64-bit integer. *)
Lemma groupby_sum_int64 (keyed : list (option K * Z)) :
  Forall (fun kv => int64 (snd kv)) keyed ->
  Forall (fun e => int64 (snd e)) (groupby_sum cmp keyed).
Proof.
  unfold groupby_sum.
  assert (G : forall t,
             Forall (fun kv => int64 (snd kv)) keyed ->
             Forall (fun e : K * Z => int64 (snd e)) t ->
             Forall (fun e : K * Z => int64 (snd e))
               (fold_left
                  (fun t kv => match fst kv with
                               | Some k => add_group cmp k (snd kv) t
                               | None => t
                               end) keyed t)).
  { induction keyed as [| [k v] keyed IH]; intros t F T; [exact T |].
    inversion F as [| ? ? Fv Fk]; subst. cbn [fold_left fst snd]. apply (IH _ Fk).
    destruct k; [apply add_group_int64; assumption | exact T]. }
  intros F. apply (G [] F). constructor.
Qed.

Lemma add_group_Forall (Q : K -> Prop) (k : K) (v : Z) (t : table K) :
  Q k -> Forall (fun e => Q (fst e)) t ->
  Forall (fun e => Q (fst e)) (add_group cmp k v t).
Proof.
  intros Qk. induction 1 as [| [k' s] t He Ht IH]; cbn [add_group].
  - repeat constructor. exact Qk.
  - destruct (cmp k k'); repeat constructor; assumption.
Qed.

Lemma add_group_sorted (k : K) (v : Z) (t : table K) :
  StronglySorted (key_lt cmp) t -> StronglySorted (key_lt cmp) (add_group cmp k v t).
Proof.
  induction 1 as [| [k' s] t S IH F]; cbn [add_group]; [repeat constructor |].
  destruct (cmp k k') eqn:C.
  - constructor; [exact S | exact F].
  - constructor; [constructor; assumption |].
    constructor; [exact C |].
    eapply Forall_impl; [| exact F]. unfold key_lt. cbn [fst].
    intros e He. exact (cmp_trans cmp order _ _ _ C He).
  - constructor; [exact IH |].
    apply (add_group_Forall (fun x => cmp k' x = Lt)); [exact (gt_lt _ _ C) | exact F].
Qed.

Lemma groupby_sum_sorted (keyed : list (option K * Z)) :
  StronglySorted (key_lt cmp) (groupby_sum cmp keyed).
Proof.
  unfold groupby_sum.
  assert (G : forall t, StronglySorted (key_lt cmp) t ->
             StronglySorted (key_lt cmp)
               (fold_left
                  (fun t kv => match fst kv with
                               | Some k => add_group cmp k (snd kv) t
                               | None => t
                               end) keyed t)).
  { induction keyed as [| [k v] keyed IH]; intros t S; [exact S |].
    cbn [fold_left]. apply IH. cbn [fst snd].
    destruct k; [apply add_group_sorted; exact S | exact S]. }
  apply G. constructor.
Qed.

Lemma sorted_distinct (t : table K) :
  StronglySorted (key_lt cmp) t -> distinct cmp t.
Proof.
  induction 1 as [| e t _ IH F]; [exact I |].
  split; [| exact IH].
  eapply Forall_impl; [| exact F]. intros e' L. exact (lt_not_same _ _ L).
Qed.

Lemma distinct_lookup (t : table K) :
  distinct cmp t -> forall k v, In (k, v) t -> lookup cmp k t = v.
Proof.
  induction t as [| e t IH]; intros D k v H; [destruct H |].
  destruct D as [F D]. rewrite lookup_cons. destruct H as [-> | H].
  - cbn [fst snd]. rewrite same_refl, (lookup_absent k t F). lia.
  - rewrite (IH D k v H). rewrite Forall_forall in F.
    pose proof (F (k, v) H) as X. cbn [fst] in X. rewrite same_sym, X. lia.
Qed.

Lemma distinct_Permutation (t t' : table K) :
  Permutation t t' -> distinct cmp t -> distinct cmp t'.
Proof.
  induction 1 as [| e t t' P IH | a b t | t t' t'' _ IH1 _ IH2]; cbn [distinct].
  - exact (fun d => d).
  - intros [F D]. split; [exact (Permutation_Forall P F) | exact (IH D)].
  - intros [F [G D]]. inversion F as [| ? ? Fb Ft]; subst.
    split; [constructor; [rewrite same_sym; exact Fb | exact G] |].
    split; [exact Ft | exact D].
  - intros D. exact (IH2 (IH1 D)).
Qed.

Lemma distinct_firstn (n : nat) (t : table K) :
  distinct cmp t -> distinct cmp (firstn n t).
Proof.
  revert t. induction n as [| n IH]; intros [| e t]; cbn [firstn distinct]; auto.
  intros [F D]. split; [| exact (IH t D)].
  apply Forall_forall. intros x Hx. rewrite Forall_forall in F.
  apply F. rewrite <- (firstn_skipn n t). apply in_or_app. left. exact Hx.
Qed.

Lemma add_group_has (k : K) (v : Z) (t : table K) :
  exists k' v', In (k', v') (add_group cmp k v t) /\ cmp k k' = Eq.
Proof.
  induction t as [| [k' s] t [k1 [v1 [I E]]]]; cbn [add_group].
  - exists k, v. split; [left; reflexivity | apply (cmp_refl cmp order)].
  - destruct (cmp k k') eqn:C.
    + exists k', (wrap64 (s + v)). split; [left; reflexivity | exact C].
    + exists k, v. split; [left; reflexivity | apply (cmp_refl cmp order)].
    + exists k1, v1. split; [right; exact I | exact E].
Qed.

Lemma add_group_keeps (k : K) (v : Z) (t : table K) (k1 : K) (v1 : Z) :
  In (k1, v1) t -> exists v1', In (k1, v1') (add_group cmp k v t).
Proof.
  induction t as [| [k' s] t IH]; intros H; [destruct H |]. cbn [add_group].
  destruct (cmp k k') eqn:C.
  - destruct H as [E | H]; [injection E as -> -> | ].
    + eexists. left. reflexivity.
    + exists v1. right. exact H.
  - exists v1. right. exact H.
  - destruct H as [E | H].
    + exists v1. left. exact E.
    + destruct (IH H) as [v1' I]. exists v1'. right. exact I.
Qed.

Lemma add_group_from (k : K) (v : Z) (t : table K) (k1 : K) (v1 : Z) :
  In (k1, v1) (add_group cmp k v t) -> k1 = k \/ exists v1', In (k1, v1') t.
Proof.
  induction t as [| [k' s] t IH]; cbn [add_group].
  - intros [E | []]. injection E as <- _. left. reflexivity.
  - destruct (cmp k k') eqn:C.
    + intros [E | H].
      * injection E as <- _. right. eexists. left. reflexivity.
      * right. exists v1. right. exact H.
    + intros [E | H]; [injection E as <- _; left; reflexivity |].
      right. exists v1. exact H.
    + intros [E | H].
      * right. exists v1. left. exact E.
      * destruct (IH H) as [-> | [v1' I]]; [left; reflexivity |].
        right. exists v1'. right. exact I.
Qed.

(** Every key of the input has its group in the table. *)
Lemma groupby_sum_has (keyed : list (option K * Z)) (k : K) (v : Z) :
  In (Some k, v) keyed ->
  exists k' v', In (k', v') (groupby_sum cmp keyed) /\ cmp k k' = Eq.
Proof.
  unfold groupby_sum.
  assert (G : forall t,
             (exists k' v', In (k', v') t /\ cmp k k' = Eq) \/ In (Some k, v) keyed ->
             exists k' v',
               In (k', v')
                 (fold_left
                    (fun t kv => match fst kv with
                                 | Some k => add_group cmp k (snd kv) t
                                 | None => t
                                 end) keyed t)
               /\ cmp k k' = Eq).
  { induction keyed as [| [k0 v0] keyed IH]; intros t H.
    - destruct H as [H | []]. exact H.
    - cbn [fold_left fst snd]. apply IH.
      destruct H as [[k' [v' [I E]]] | [X | H]].
      + left. destruct k0 as [k0 |]; [| exists k', v'; auto].
        destruct (add_group_keeps k0 v0 t k' v' I) as [v'' I'].
        exists k', v''. auto.
      + injection X as -> ->. left. apply add_group_has.
      + right. exact H. }
  intros H. apply G. right. exact H.
Qed.

(** Every key of the table is a key of the input. *)
Lemma groupby_sum_from (keyed : list (option K * Z)) (k : K) (v : Z) :
  In (k, v) (groupby_sum cmp keyed) -> exists v', In (Some k, v') keyed.
Proof.
  unfold groupby_sum.
  assert (G : forall t,
             In (k, v)
               (fold_left
                  (fun t kv => match fst kv with
                               | Some k => add_group cmp k (snd kv) t
                               | None => t
                               end) keyed t) ->
             (exists v', In (k, v') t) \/ exists v', In (Some k, v') keyed).
  { induction keyed as [| [k0 v0] keyed IH]; intros t H.
    - left. exists v. exact H.
    - cbn [fold_left fst snd] in H. destruct (IH _ H) as [[v' I] | [v' I]].
      + destruct k0 as [k0 |]; [| left; exists v'; exact I].
        destruct (add_group_from _ _ _ _ _ I) as [-> | X].
        * right. exists v0. left. reflexivity.
        * left. exact X.
      + right. exists v'. right. exact I. }
  intros H. destruct (G [] H) as [[v' []] | X]. exact X.
Qed.

End Grouping.

(** ** Counting the values of a column *)

Lemma same_true {K} (cmp : K -> K -> comparison) (a b : K) :
  same cmp a b = true -> cmp a b = Eq.
Proof. unfold same. destruct (cmp a b); [reflexivity | discriminate | discriminate]. Qed.

Lemma lookup_tally (k0 k : cell) (t : table cell) :
  lookup key_compare k0 (tally k t)
  = lookup key_compare k0 t + (if same key_compare k k0 then 1 else 0).
Proof.
  induction t as [| [k' n] t IH]; cbn [tally].
  - rewrite lookup_cons. cbn [fst snd]. unfold lookup. cbn. lia.
  - change (key_eqb k k') with (same key_compare k k').
    destruct (same key_compare k k') eqn:C.
    + apply same_true in C. rewrite !lookup_cons. cbn [fst snd].
      rewrite (same_eq_l key_compare cell_order k k' k0 C).
      destruct (same key_compare k' k0); lia.
    + rewrite !lookup_cons, IH. lia.
Qed.

Lemma tally_Forall (Q : cell * Z -> Prop) (k : cell) (t : table cell) :
  Q (k, 1) ->
  (forall k' n, Q (k', n) -> same key_compare k k' = true -> Q (k', n + 1)) ->
  Forall Q t -> Forall Q (tally k t).
Proof.
  intros Qk Qs. induction 1 as [| [k' n] t He Ht IH]; cbn [tally].
  - repeat constructor. exact Qk.
  - change (key_eqb k k') with (same key_compare k k').
    destruct (same key_compare k k') eqn:C.
    + constructor; [apply Qs; assumption | exact Ht].
    + constructor; [exact He | exact IH].
Qed.

Lemma tally_distinct (k : cell) (t : table cell) :
  distinct key_compare t -> distinct key_compare (tally k t).
Proof.
  induction t as [| [k' n] t IH]; cbn [tally distinct].
  - intros _. split; [constructor | exact I].
  - intros [F D]. change (key_eqb k k') with (same key_compare k k').
    destruct (same key_compare k k') eqn:C; cbn [distinct fst].
    + split; [exact F | exact D].
    + split; [| exact (IH D)].
      apply (tally_Forall (fun e => same key_compare (fst e) k' = false)).
      * exact C.
      * intros k1 n1 X _. exact X.
      * exact F.
Qed.

Lemma tally_has (k : cell) (t : table cell) :
  exists k' n, In (k', n) (tally k t) /\ same key_compare k k' = true.
Proof.
  induction t as [| [k' n] t [k1 [n1 [I E]]]]; cbn [tally].
  - exists k, 1. split; [left; reflexivity | apply (same_refl key_compare cell_order)].
  - change (key_eqb k k') with (same key_compare k k').
    destruct (same key_compare k k') eqn:C.
    + exists k', (n + 1). split; [left; reflexivity | exact C].
    + exists k1, n1. split; [right; exact I | exact E].
Qed.

Lemma tally_keeps (k : cell) (t : table cell) (k1 : cell) (n1 : Z) :
  In (k1, n1) t -> exists n1', In (k1, n1') (tally k t).
Proof.
  induction t as [| [k' n] t IH]; intros H; [destruct H |]. cbn [tally].
  destruct (key_eqb k k').
  - destruct H as [E | H]; [injection E as -> -> |].
    + eexists. left. reflexivity.
    + exists n1. right. exact H.
  - destruct H as [E | H].
    + exists n1. left. exact E.
    + destruct (IH H) as [n1' I]. exists n1'. right. exact I.
Qed.

Lemma tally_from (k : cell) (t : table cell) (k1 : cell) (n1 : Z) :
  In (k1, n1) (tally k t) -> k1 = k \/ exists n1', In (k1, n1') t.
Proof.
  induction t as [| [k' n] t IH]; cbn [tally].
  - intros [E | []]. injection E as <- _. left. reflexivity.
  - destruct (key_eqb k k').
    + intros [E | H].
      * injection E as <- _. right. eexists. left. reflexivity.
      * right. exists n1. right. exact H.
    + intros [E | H].
      * right. exists n1. left. exact E.
      * destruct (IH H) as [-> | [n1' I]]; [left; reflexivity |].
        right. exists n1'. right. exact I.
Qed.

Lemma key_of_Some (c k : cell) : key_of c = Some k -> c = k /\ isnull k = false.
Proof.
  unfold key_of. destruct (isnull c) eqn:N; [discriminate |].
  intros E. injection E as <-. auto.
Qed.

(** What holds of the tallies of a column, whatever was tallied before. *)
Lemma tallies_invariant (col : list cell) :
  forall t : table cell,
    let t' := fold_left
                (fun t c => match key_of c with Some k => tally k t | None => t end)
                col t in
    (distinct key_compare t -> distinct key_compare t')
    /\ (Forall (fun e => 1 <= snd e) t -> Forall (fun e => 1 <= snd e) t')
    /\ (forall k0, lookup key_compare k0 t'
                   = lookup key_compare k0 t
                     + count (fun c => match key_of c with
                                       | Some k => same key_compare k k0
                                       | None => false
                                       end) col)
    /\ (forall k n, In (k, n) t' ->
          (exists n', In (k, n') t) \/ (In k col /\ isnull k = false))
    /\ (forall k, (exists k' n, In (k', n) t /\ same key_compare k k' = true)
                  \/ (In k col /\ isnull k = false) ->
          exists k' n, In (k', n) t' /\ same key_compare k k' = true).
Proof.
  induction col as [| c col IH]; intros t; cbn [fold_left].
  - cbv zeta. repeat split; auto.
    + intros k0. change (count _ []) with 0. lia.
    + intros k n H. left. exists n. exact H.
    + intros k [H | [[] _]]. exact H.
  - cbv zeta.
    specialize (IH (match key_of c with Some k => tally k t | None => t end)).
    cbv zeta in IH. destruct IH as [ID [IP [IL [IF IH]]]].
    destruct (key_of c) as [kc |] eqn:Kc.
    + apply key_of_Some in Kc. destruct Kc as [-> Nc].
      split; [intros D; apply ID, tally_distinct, D |].
      split; [intros P; apply IP;
              apply (tally_Forall (fun e => 1 <= snd e));
              [cbn; lia | cbn; intros; lia | exact P] |].
      split; [intros k0; rewrite IL, lookup_tally, count_cons;
              unfold key_of; rewrite Nc; lia |].
      split.
      * intros k n H. destruct (IF k n H) as [[n' I] | [I N]].
        -- destruct (tally_from _ _ _ _ I) as [-> | X].
           ++ right. split; [left; reflexivity | exact Nc].
           ++ left. exact X.
        -- right. split; [right; exact I | exact N].
      * intros k H. apply IH. destruct H as [[k' [n [I E]]] | [[-> | I] N]].
        -- left. destruct (tally_keeps kc t k' n I) as [n' I'].
           exists k', n'. auto.
        -- left. apply tally_has.
        -- right. auto.
    + assert (Nc : isnull c = true)
        by (unfold key_of in Kc; destruct (isnull c); [reflexivity | discriminate]).
      split; [exact ID | split; [exact IP |]].
      split; [intros k0; rewrite IL, count_cons; unfold key_of; rewrite Nc; lia |].
      split.
      * intros k n H. destruct (IF k n H) as [X | [I N]]; [left; exact X |].
        right. split; [right; exact I | exact N].
      * intros k H. apply IH. destruct H as [X | [[-> | I] N]];
          [left; exact X | congruence | right; auto].
Qed.

Lemma value_counts_tallies (col : list cell) :
  value_counts col = sort_values_desc (tallies col).
Proof. reflexivity. Qed.

Lemma keyed_rows_count (col : row (option Timestamp) Z -> cell) (k : cell) (df : Frame) :
  count (fun c => match key_of c with
                  | Some k' => same key_compare k' k
                  | None => false
                  end) (map col df)
  = len (keyed_rows col k df).
Proof. rewrite count_map. reflexivity. Qed.

Lemma value_counts_counts (col : row (option Timestamp) Z -> cell) (df : Frame) :
  counts_of col df (value_counts (map col df)).
Proof.
  rewrite value_counts_tallies.
  pose proof (sort_values_desc_Permutation (tallies (map col df))) as P.
  destruct (tallies_invariant (map col df) []) as [D [Pos [L [F H]]]].
  fold (tallies (map col df)) in D, Pos, L, F, H.
  specialize (D I). specialize (Pos (Forall_nil _)).
  split; [exact (distinct_Permutation key_compare cell_order _ _ P D) |]. split.
  - intros k n Hk. apply (Permutation_in _ (Permutation_sym P)) in Hk.
    destruct (F k n Hk) as [[n' []] | [_ N]].
    split; [exact N |]. split.
    + rewrite Forall_forall in Pos. exact (Pos (k, n) Hk).
    + rewrite <- keyed_rows_count, <- (distinct_lookup key_compare cell_order _ D k n Hk).
      rewrite L. unfold lookup. cbn. lia.
  - intros r Hr N. destruct (H (col r)) as [k [n [Hk E]]].
    + right. split; [apply in_map; exact Hr | exact N].
    + exists k, n. split; [exact (Permutation_in _ P Hk) | exact E].
Qed.

(** X13.  The sentiment and media type tables hold one row per value of
    the column, none for an empty cell; the count of a row is the number
    of cleaned rows with that value and is at least 1; every cleaned row
    with a value is counted; the rows stand in non-increasing order of
    their counts. *)
Theorem counts_by_key (df : Frame) :
  counts_of Sentiment df (sentiment_counts df)
  /\ StronglySorted desc (sentiment_counts df)
  /\ counts_of Media_Type df (media_type_counts df)
  /\ StronglySorted desc (media_type_counts df).
Proof.
  split; [exact (value_counts_counts Sentiment df) |].
  split; [apply sort_values_desc_sorted |].
  split; [exact (value_counts_counts Media_Type df) | apply sort_values_desc_sorted].
Qed.

(** ** Summing by platform, by location and by date *)

Lemma sum_keyed_keyed_rows (col : row (option Timestamp) Z -> cell) (k : cell) (df : Frame) :
  sum_keyed (filter (keyed_as key_compare k)
               (map (fun r => (key_of (col r), Engagements r)) df))
  = sum_engagements (keyed_rows col k df).
Proof.
  induction df as [| r df IH]; [reflexivity |].
  unfold keyed_rows in *. cbn [map filter]. unfold keyed_as at 1. cbn [fst].
  destruct (key_of (col r)) as [k' |]; [| exact IH].
  destruct (same key_compare k' k); [| exact IH].
  cbn [sum_keyed sum_engagements fold_right fst snd]. f_equal. exact IH.
Qed.

Lemma int64_keyed {K} (key : row (option Timestamp) Z -> option K) (df : Frame) :
  int64_frame df ->
  Forall (fun kv => int64 (snd kv)) (map (fun r => (key r, Engagements r)) df).
Proof.
  intros H. apply Forall_map. eapply Forall_impl; [| exact H]. intros r Hr. exact Hr.
Qed.

Lemma groupby_sum_sums (col : row (option Timestamp) Z -> cell) (df : Frame) :
  int64_frame df ->
  sums_of col df (groupby_sum key_compare (map (fun r => (key_of (col r), Engagements r)) df)).
Proof.
  intros I64.
  pose proof (groupby_sum_int64 key_compare _ (int64_keyed (fun r => key_of (col r)) df I64))
    as R.
  set (keyed := map (fun r => (key_of (col r), Engagements r)) df) in *.
  pose proof (sorted_distinct key_compare cell_order _
                (groupby_sum_sorted key_compare cell_order keyed)) as D.
  split; [exact D |]. split.
  - intros k v Hk. split.
    + destruct (groupby_sum_from key_compare keyed k v Hk) as [v' I].
      unfold keyed in I. apply in_map_iff in I. destruct I as [r [E _]].
      injection E as E _. apply key_of_Some in E. exact (proj2 E).
    + rewrite <- sum_keyed_keyed_rows. fold keyed.
      rewrite <- (lookup_groupby_sum key_compare cell_order).
      rewrite (distinct_lookup key_compare cell_order _ D k v Hk).
      symmetry. apply wrap64_id. rewrite Forall_forall in R. exact (R (k, v) Hk).
  - intros r Hr N.
    destruct (groupby_sum_has key_compare cell_order keyed (col r) (Engagements r))
      as [k [v [I E]]].
    + unfold keyed. apply in_map_iff. exists r. split; [| exact Hr].
      unfold key_of. rewrite N. reflexivity.
    + exists k, v. split; [exact I |]. unfold same. rewrite E. reflexivity.
Qed.

Lemma sums_of_Permutation (col : row (option Timestamp) Z -> cell) (df : Frame)
  (t t' : table cell) :
  Permutation t t' -> sums_of col df t -> sums_of col df t'.
Proof.
  intros P [D [S H]]. split; [exact (distinct_Permutation key_compare cell_order _ _ P D) |].
  split.
  - intros k v Hk. apply S. exact (Permutation_in _ (Permutation_sym P) Hk).
  - intros r Hr N. destruct (H r Hr N) as [k [v [I E]]].
    exists k, v. split; [exact (Permutation_in _ P I) | exact E].
Qed.

(** X12.  On a frame of 64-bit engagements, as cleaning leaves it, the
    platform table and the table of all location sums hold one row per
    value of the column, none for an empty cell; the sum of a row is the
    total of [Engagements] over the cleaned rows with that value, taken
    as a 64-bit integer, and every cleaned row with a value is in a
    group.  Each row of the top-five table is a row of the location
    sums, so it carries the total of its location, and no location is
    listed twice. *)
Theorem sums_by_key (df : Frame) :
  int64_frame df ->
  sums_of Platform df (platform_engagements df)
  /\ sums_of Location df (location_sums df)
  /\ distinct key_compare (engagements_by_location df)
  /\ (forall k v, In (k, v) (engagements_by_location df) ->
        In (k, v) (location_sums df)
        /\ v = wrap64 (sum_engagements (keyed_rows Location k df))).
Proof.
  intros I64.
  pose proof (groupby_sum_sums Location df I64) as L. fold (location_sums df) in L.
  pose proof (sums_of_Permutation _ _ _ _
                (sort_values_desc_Permutation (location_sums df)) L) as LS.
  split; [| split; [exact L | split]].
  - unfold platform_engagements.
    eapply sums_of_Permutation; [apply sort_values_desc_Permutation |].
    apply groupby_sum_sums. exact I64.
  - unfold engagements_by_location.
    apply (distinct_firstn key_compare). exact (proj1 LS).
  - intros k v H. unfold engagements_by_location in H.
    assert (I : In (k, v) (sort_values_desc (location_sums df))).
    { rewrite <- (firstn_skipn 5). apply in_or_app. left. exact H. }
    split.
    + exact (Permutation_in _ (Permutation_sym
                                 (sort_values_desc_Permutation (location_sums df))) I).
    + exact (proj2 (proj1 (proj2 LS) k v I)).
Qed.

(** The statement at [sample_frame]. *)
Lemma sums_by_key_witness :
  sums_of Platform sample_frame (platform_engagements sample_frame)
  /\ sums_of Location sample_frame (location_sums sample_frame)
  /\ distinct key_compare (engagements_by_location sample_frame)
  /\ (forall k v, In (k, v) (engagements_by_location sample_frame) ->
        In (k, v) (location_sums sample_frame)
        /\ v = wrap64 (sum_engagements (keyed_rows Location k sample_frame))).
Proof.
  apply (sums_by_key sample_frame). repeat constructor; discriminate.
Defined.

Lemma sum_keyed_on_date (d : date) (df : Frame) :
  sum_keyed (filter (keyed_as date_compare d)
               (map (fun r => (option_map ts_date (Date r), Engagements r)) df))
  = sum_engagements (on_date d df).
Proof.
  induction df as [| r df IH]; [reflexivity |].
  unfold on_date in *. cbn [map filter]. unfold keyed_as at 1. cbn [fst].
  destruct (Date r) as [ts |]; cbn [option_map]; [| exact IH].
  destruct (same date_compare (ts_date ts) d); [| exact IH].
  cbn [sum_keyed sum_engagements fold_right fst snd]. f_equal. exact IH.
Qed.

Lemma engagement_by_date_dated (df : Frame) (r : row (option Timestamp) Z) (ts : Timestamp) :
  In r df -> Date r = Some ts ->
  exists v, In (ts_date ts, v) (engagement_by_date df).
Proof.
  intros Hr E. unfold engagement_by_date.
  destruct (groupby_sum_has date_compare date_order
              (map (fun r => (option_map ts_date (Date r), Engagements r)) df)
              (ts_date ts) (Engagements r)) as [k [v [I Q]]].
  - apply in_map_iff. exists r. split; [| exact Hr]. rewrite E. reflexivity.
  - apply date_compare_eq in Q. subst k. exists v. exact I.
Qed.

(** X11.  On a frame of 64-bit engagements, as cleaning leaves it, the
    table by date lists the calendar dates of the cleaned rows in
    strictly ascending order, each once; the total of a date is the sum
    of [Engagements] over the rows of that date, whatever their time of
    day, taken as a 64-bit integer, and every dated row has its date in
    the table. *)
Theorem engagement_by_date_rows (df : Frame) :
  int64_frame df ->
  StronglySorted (key_lt date_compare) (engagement_by_date df)
  /\ (forall d v, In (d, v) (engagement_by_date df) ->
        v = wrap64 (sum_engagements (on_date d df)) /\ on_date d df <> [])
  /\ (forall r ts, In r df -> Date r = Some ts ->
        exists v, In (ts_date ts, v) (engagement_by_date df)).
Proof.
  intros I64. unfold engagement_by_date.
  pose proof (groupby_sum_int64 date_compare _
                (int64_keyed (fun r => option_map ts_date (Date r)) df I64)) as R.
  set (keyed := map (fun r => (option_map ts_date (Date r), Engagements r)) df) in *.
  pose proof (groupby_sum_sorted date_compare date_order keyed) as S.
  pose proof (sorted_distinct date_compare date_order _ S) as D.
  split; [exact S |]. split.
  - intros d v H. split.
    + rewrite <- sum_keyed_on_date. fold keyed.
      rewrite <- (lookup_groupby_sum date_compare date_order).
      rewrite (distinct_lookup date_compare date_order _ D d v H).
      symmetry. apply wrap64_id. rewrite Forall_forall in R. exact (R (d, v) H).
    + destruct (groupby_sum_from date_compare keyed d v H) as [v' I].
      unfold keyed in I. apply in_map_iff in I. destruct I as [r [E Hr]].
      injection E as E _. intros X.
      assert (M : In r (on_date d df)).
      { unfold on_date. apply filter_In. split; [exact Hr |].
        destruct (Date r) as [ts |]; [| discriminate E].
        cbn in E. injection E as ->. apply (same_refl date_compare date_order). }
      rewrite X in M. destruct M.
  - intros r ts Hr E.
    destruct (groupby_sum_has date_compare date_order keyed (ts_date ts) (Engagements r))
      as [k [v [I Q]]].
    + unfold keyed. apply in_map_iff. exists r. split; [| exact Hr].
      rewrite E. reflexivity.
    + apply date_compare_eq in Q. subst k. exists v. exact I.
Qed.

(** The statement at [sample_frame]. *)
Lemma engagement_by_date_rows_witness :
  StronglySorted (key_lt date_compare) (engagement_by_date sample_frame)
  /\ (forall d v, In (d, v) (engagement_by_date sample_frame) ->
        v = wrap64 (sum_engagements (on_date d sample_frame))
        /\ on_date d sample_frame <> [])
  /\ (forall r ts, In r sample_frame -> Date r = Some ts ->
        exists v, In (ts_date ts, v) (engagement_by_date sample_frame)).
Proof.
  apply (engagement_by_date_rows sample_frame). repeat constructor; discriminate.
Defined.

(** ** The remark on the media mix *)

Lemma Qdiv_lt_half (c d : Z) :
  0 < d -> (inject_Z c / inject_Z d < 0.5)%Q <-> 2 * c < d.
Proof.
  intros D. destruct d as [| d | d]; [lia | | lia].
  unfold Qlt, Qdiv, Qmult, Qinv, inject_Z. cbn [Qnum Qden].
  rewrite ?Pos2Z.inj_mul. lia.
Qed.

Lemma total_nonneg {K} (t : table K) :
  Forall (fun e => 1 <= snd e) t -> 0 <= total t.
Proof.
  induction 1 as [| e t He _ IH]; [cbn; lia | rewrite total_cons; lia].
Qed.

Lemma total_media_type_counts (df : Frame) :
  total (media_type_counts df) = len (with_key Media_Type df).
Proof.
  unfold media_type_counts. rewrite total_value_counts, count_map. reflexivity.
Qed.

(** X8.  With at least one media type in the table, the media mix is
    called diverse exactly when the leading type has less than half of
    the rows that have a media type, and dominated otherwise: a leading
    type with exactly half of them is dominating. *)
Theorem media_mix_remark (df : Frame) :
  match media_type_counts df with
  | [] => media_type_insights (media_type_counts df) = []
  | (k, c) :: _ =>
      (In DiverseMediaMix (media_type_insights (media_type_counts df))
       <-> 2 * c < len (with_key Media_Type df))
      /\ (In ConcentratedMediaMix (media_type_insights (media_type_counts df))
          <-> len (with_key Media_Type df) <= 2 * c)
  end.
Proof.
  pose proof (total_media_type_counts df) as T.
  destruct (value_counts_counts Media_Type df) as [_ [P _]].
  fold (media_type_counts df) in P.
  destruct (media_type_counts df) as [| [k c] rest]; [reflexivity |].
  assert (Pos : Forall (fun e : cell * Z => 1 <= snd e) ((k, c) :: rest)).
  { apply Forall_forall. intros [k' n] H. exact (proj1 (proj2 (P k' n H))). }
  inversion Pos as [| ? ? Pc Pr]; subst. cbn [snd] in Pc.
  pose proof (total_nonneg rest Pr) as R. rewrite total_cons in T. cbn [snd] in T.
  assert (D : 0 < len (with_key Media_Type df)) by lia.
  pose proof (Qltb_lt (inject_Z c / inject_Z (total ((k, c) :: rest))) 0.5) as Q.
  rewrite total_cons in Q. cbn [snd] in Q. rewrite T in Q.
  rewrite (Qdiv_lt_half c _ D) in Q.
  unfold media_type_insights. rewrite total_cons. cbn [snd]. rewrite T.
  cbn [at_rank nth_error fst snd].
  destruct (Qltb (inject_Z c / inject_Z (len (with_key Media_Type df))) 0.5).
  - assert (L : 2 * c < len (with_key Media_Type df)) by (apply Q; reflexivity).
    destruct rest as [| b rest]; cbn [at_rank nth_error app In]; split; split; intros X;
      try lia; auto;
      repeat (destruct X as [X | X]; try discriminate X); destruct X.
  - assert (L : ~ 2 * c < len (with_key Media_Type df))
      by (intros X; apply Q in X; discriminate X).
    destruct rest as [| b rest]; cbn [at_rank nth_error app In]; split; split; intros X;
      try lia; auto;
      repeat (destruct X as [X | X]; try discriminate X); destruct X.
Qed.

(** ** When the charts are shown *)

(** X10.  When an upload ends in the charts, at least one row was
    cleaned, the table by date is not empty, and the trend section holds
    at least the peak and the average: of the five sections only the
    ones grouped by a column that may be empty can come out empty. *)
Theorem charts_shown (parse_datetime : list cell -> cell -> option Timestamp)
  (df : DataFrame) (r : CleaningReport) (d : Dashboard) :
  pipeline parse_datetime df = Success r d ->
  0 < cleaned_rows r
  /\ trend_table d <> []
  /\ (2 <= List.length (trend_text d))%nat.
Proof.
  unfold pipeline. destruct (clean parse_datetime df) as [[r0 f] | e] eqn:C; [| discriminate].
  destruct (cleaned_rows r0 =? 0) eqn:Z0; [discriminate |].
  intros H. injection H as -> <-. apply Z.eqb_neq in Z0.
  destruct (clean_Ok _ _ _ _ C) as [df2 [_ [F R]]].
  assert (L : cleaned_rows r = len f) by (rewrite R; reflexivity).
  split; [pose proof (len_nonneg f); lia |].
  assert (N : trend_table (build_dashboard f) <> []).
  { cbn [build_dashboard trend_table].
    destruct f as [| x f']; [exfalso; apply Z0; rewrite L; reflexivity |].
    pose proof (dropna_Date_notnull df2) as NN. rewrite <- F in NN.
    inversion NN as [| ? ? Nx _]; subst. unfold notnull_Date in Nx.
    destruct (Date x) as [ts |] eqn:Dx; [| discriminate Nx].
    destruct (engagement_by_date_dated (x :: f') x ts (or_introl eq_refl) Dx) as [v I].
    intros E. rewrite E in I. destruct I. }
  split; [exact N |].
  cbn [build_dashboard trend_table trend_text] in *.
  destruct (engagement_by_date f) as [| a [| b t]]; [contradiction | cbn; lia |].
  unfold engagement_insights. rewrite len_ge_2. cbn. lia.
Qed.

(** The statement at [sample_df]. *)
Lemma charts_shown_witness :
  0 < cleaned_rows sample_report
  /\ trend_table (build_dashboard sample_frame) <> []
  /\ (2 <= List.length (trend_text (build_dashboard sample_frame)))%nat.
Proof.
  apply (charts_shown parse_iso_date sample_df sample_report (build_dashboard sample_frame)).
  vm_compute. reflexivity.
Defined.

(** ** The column names *)

Lemma has_column_app (col : string) (a b : list (string * list cell)) :
  has_column col (a ++ b) = has_column col a || has_column col b.
Proof. unfold has_column. apply existsb_app. Qed.

Lemma add_missing_fold (n : nat) (req : list string) :
  forall cols,
  exists added,
    fold_left (add_if_missing n) req cols = cols ++ added
    /\ Forall (fun nc => In (fst nc) req /\ snd nc = repeat (CStr "") n
                         /\ has_column (fst nc) cols = false) added
    /\ NoDup (map fst added)
    /\ Forall (fun col => has_column col (cols ++ added) = true) req.
Proof.
  induction req as [| c req IH]; intros cols; cbn [fold_left].
  - exists []. rewrite app_nil_r. repeat split; constructor.
  - unfold add_if_missing at 2. destruct (has_column c cols) eqn:H.
    + destruct (IH cols) as [added [E [F [N P]]]]. exists added.
      split; [exact E |]. split; [| split; [exact N |]].
      * eapply Forall_impl; [| exact F]. intros nc [I X]. split; [right; exact I | exact X].
      * constructor; [| exact P]. rewrite has_column_app, H. reflexivity.
    + destruct (IH (cols ++ [(c, repeat (CStr "") n)])) as [added [E [F [N P]]]].
      exists ((c, repeat (CStr "") n) :: added).
      rewrite E, <- app_assoc. cbn [app]. split; [reflexivity |].
      assert (FA : Forall (fun nc : string * list cell =>
                             has_column (fst nc) (cols ++ [(c, repeat (CStr "") n)]) = false)
                     added).
      { eapply Forall_impl; [| exact F]. intros nc X. exact (proj2 (proj2 X)). }
      split; [| split].
      * constructor; [cbn; auto |].
        eapply Forall_impl; [| exact F]. intros nc [I [S X]].
        rewrite has_column_app in X. apply orb_false_iff in X.
        split; [right; exact I | split; [exact S | exact (proj1 X)]].
      * cbn [map fst]. constructor; [| exact N].
        intros I. apply in_map_iff in I. destruct I as [nc [Enc Inc]].
        rewrite Forall_forall in FA. specialize (FA nc Inc).
        rewrite has_column_app in FA. apply orb_false_iff in FA.
        destruct FA as [_ FA]. cbn in FA. rewrite Enc, String.eqb_refl in FA.
        discriminate FA.
      * rewrite <- app_assoc in P. cbn [app] in P.
        constructor; [| exact P].
        rewrite has_column_app. cbn. rewrite String.eqb_refl, orb_true_r. reflexivity.
Qed.

(** X14.  After lines 46-53 the frame has the same rows, its columns
    stand in their order under their normalised names with their cells
    unchanged, each of the six required columns is present, and the
    columns added are required ones that were absent, each added once
    and holding the empty string in every row. *)
Theorem required_columns_present (df : RawFrame) :
  n_rows (normalize_schema df) = n_rows df
  /\ Forall (fun col => has_column col (columns (normalize_schema df)) = true)
       required_columns
  /\ exists added,
       columns (normalize_schema df) = renamed_columns (columns df) ++ added
       /\ Forall (added_column (n_rows df) (renamed_columns (columns df))) added
       /\ NoDup (map fst added).
Proof.
  split; [reflexivity |]. cbn [normalize_schema columns].
  destruct (add_missing_fold (n_rows df) required_columns (renamed_columns (columns df)))
    as [added [E [F [N P]]]].
  rewrite E. split; [exact P |]. exists added. auto.
Qed.

Lemma lower_lower (a : ascii) : lower (lower a) = lower a.
Proof. destruct a as [[] [] [] [] [] [] [] []]; reflexivity. Qed.

Lemma lstrip_suffix (l : list ascii) :
  exists pre, l = pre ++ lstrip l /\ Forall (fun a => is_space a = true) pre.
Proof.
  induction l as [| a l [pre [E F]]]; [exists []; split; [reflexivity | constructor] |].
  cbn [lstrip]. destruct (is_space a) eqn:S.
  - exists (a :: pre). cbn [app]. split; [f_equal; exact E | constructor; assumption].
  - exists []. split; [reflexivity | constructor].
Qed.

Lemma lstrip_fixed (l : list ascii) :
  match l with [] => True | a :: _ => is_space a = false end -> lstrip l = l.
Proof.
  destruct l as [| a l]; [reflexivity |]. cbn [lstrip]. intros ->. reflexivity.
Qed.

Lemma lstrip_idem (l : list ascii) : lstrip (lstrip l) = lstrip l.
Proof.
  apply lstrip_fixed. destruct (lstrip l) as [| a l'] eqn:E; [exact I |].
  exact (lstrip_head _ _ _ E).
Qed.

Lemma strip_list_idem (l : list ascii) : strip_list (strip_list l) = strip_list l.
Proof.
  unfold strip_list. set (A := lstrip l). set (B := lstrip (rev A)).
  assert (X : lstrip (rev B) = rev B).
  { apply lstrip_fixed. destruct (rev B) as [| a rest] eqn:R; [exact I |].
    destruct (lstrip_suffix (rev A)) as [pre [E _]]. fold B in E.
    apply (f_equal (@rev ascii)) in E. rewrite rev_involutive, rev_app_distr, R in E.
    cbn [app] in E. exact (lstrip_head l a _ E). }
  rewrite X, rev_involutive. unfold B. rewrite lstrip_idem. reflexivity.
Qed.

Lemma Forall_lstrip (P : ascii -> Prop) (l : list ascii) :
  Forall P l -> Forall P (lstrip l).
Proof.
  intros H. destruct (lstrip_suffix l) as [pre [E _]]. rewrite E in H.
  apply Forall_app in H. exact (proj2 H).
Qed.

Lemma Forall_strip_list (P : ascii -> Prop) (l : list ascii) :
  Forall P l -> Forall P (strip_list l).
Proof.
  intros H. unfold strip_list.
  apply Forall_rev, Forall_lstrip, Forall_rev, Forall_lstrip, H.
Qed.

Lemma map_lower_fixed (l : list ascii) :
  Forall (fun a => lower a = a) l -> map lower l = l.
Proof.
  induction 1 as [| a l Ha _ IH]; [reflexivity |]. cbn [map]. rewrite Ha, IH. reflexivity.
Qed.

Lemma normalize_name_chars (s : string) :
  normalize_name s
  = string_of_list_ascii (strip_list (map lower (list_ascii_of_string s))).
Proof.
  unfold normalize_name, strip, strip_chars, lower_string, strip_list.
  rewrite list_ascii_of_string_of_list_ascii. reflexivity.
Qed.

Lemma normalize_name_idem (s : string) :
  normalize_name (normalize_name s) = normalize_name s.
Proof.
  rewrite (normalize_name_chars (normalize_name s)), (normalize_name_chars s).
  rewrite list_ascii_of_string_of_list_ascii.
  set (L := map lower (list_ascii_of_string s)).
  assert (F : Forall (fun a => lower a = a) (strip_list L)).
  { apply Forall_strip_list. unfold L. apply Forall_forall. intros a Ha.
    apply in_map_iff in Ha. destruct Ha as [b [<- _]]. apply lower_lower. }
  rewrite (map_lower_fixed _ F), strip_list_idem. reflexivity.
Qed.

Lemma lookup_name_required (name canonical : string) :
  lookup_name name column_map = Some canonical -> In canonical required_columns.
Proof.
  unfold column_map. cbn [lookup_name].
  repeat (match goal with
          | |- context [String.eqb name ?k] => destruct (String.eqb name k)
          end;
          [intros E; injection E as <-; cbn; tauto |]).
  discriminate.
Qed.

Lemma rename_required (col : string) :
  In col required_columns -> rename_column (normalize_name col) = col.
Proof.
  intros H. cbn in H.
  repeat (destruct H as [<- | H]; [reflexivity |]). destruct H.
Qed.

Lemma rename_normalize_idem (name : string) :
  rename_column (normalize_name (rename_column (normalize_name name)))
  = rename_column (normalize_name name).
Proof.
  unfold rename_column at 2 3.
  destruct (lookup_name (normalize_name name) column_map) as [c |] eqn:L.
  - apply rename_required. exact (lookup_name_required _ _ L).
  - rewrite normalize_name_idem. unfold rename_column. rewrite L. reflexivity.
Qed.

Lemma add_missing_present (n : nat) (req : list string) (cols : list (string * list cell)) :
  Forall (fun col => has_column col cols = true) req ->
  fold_left (add_if_missing n) req cols = cols.
Proof.
  induction 1 as [| c req Hc _ IH]; [reflexivity |].
  cbn [fold_left]. unfold add_if_missing at 2. rewrite Hc. exact IH.
Qed.

(** X15.  Lines 46-53 applied to their own result change nothing: the
    canonical names are recognised again, the other names are already
    normalised, and no column is added a second time. *)
Theorem normalize_schema_idempotent (df : RawFrame) :
  normalize_schema (normalize_schema df) = normalize_schema df.
Proof.
  destruct (add_missing_fold (n_rows df) required_columns (renamed_columns (columns df)))
    as [added [E [F [_ P]]]].
  unfold normalize_schema. cbn [n_rows columns]. rewrite E.
  assert (X : renamed_columns (renamed_columns (columns df) ++ added)
              = renamed_columns (columns df) ++ added).
  { unfold renamed_columns. rewrite map_app, map_map. f_equal.
    - apply map_ext. intros nc. cbn [fst snd]. rewrite rename_normalize_idem. reflexivity.
    - rewrite <- (map_id added) at 2. apply map_ext_in. intros [name cells] H.
      rewrite Forall_forall in F. destruct (F _ H) as [I _].
      cbn [fst snd] in *. rewrite (rename_required _ I). reflexivity. }
  rewrite X, (add_missing_present _ _ _ P). reflexivity.
Qed.

Lemma lstrip_blanks (pad l : list ascii) :
  Forall (fun a => is_space a = true) pad -> lstrip (pad ++ l) = lstrip l.
Proof.
  induction 1 as [| a pad Ha _ IH]; [reflexivity |].
  cbn [app lstrip]. rewrite Ha. exact IH.
Qed.

Lemma strip_list_blanks (before after l : list ascii) :
  Forall (fun a => is_space a = true) before ->
  Forall (fun a => is_space a = true) after ->
  strip_list (before ++ l ++ after) = strip_list l.
Proof.
  intros B A. unfold strip_list. rewrite (lstrip_blanks _ _ B).
  destruct (lstrip_suffix l) as [pre [E P]].
  destruct (lstrip l) as [| a l'] eqn:L.
  - rewrite app_nil_r in E. subst pre.
    assert (X : lstrip (l ++ after) = []).
    { rewrite (lstrip_blanks l after P).
      rewrite <- (app_nil_r after). rewrite (lstrip_blanks after [] A). reflexivity. }
    rewrite X. reflexivity.
  - assert (X : lstrip (l ++ after) = (a :: l') ++ after).
    { rewrite E at 1. rewrite <- app_assoc, (lstrip_blanks _ _ P).
      cbn [app lstrip]. rewrite (lstrip_head _ _ _ L). reflexivity. }
    rewrite X, rev_app_distr, (lstrip_blanks _ _ (Forall_rev A)). reflexivity.
Qed.

Lemma is_space_lower_list (l : list ascii) :
  Forall (fun a => is_space a = true) l ->
  Forall (fun a => is_space a = true) (map lower l).
Proof.
  induction 1 as [| a l Ha _ IH]; [constructor |].
  cbn [map]. constructor; [rewrite is_space_lower; exact Ha | exact IH].
Qed.

(** X16.  A header is recognised whatever blanks surround it and
    whatever the case of its letters: blanks before and after a name do
    not change its normalised form, and neither does lower-casing. *)
Theorem header_padding_ignored (before after : list ascii) (name : string) :
  Forall (fun a => is_space a = true) before ->
  Forall (fun a => is_space a = true) after ->
  normalize_name
    (string_of_list_ascii (before ++ list_ascii_of_string name ++ after))
  = normalize_name name
  /\ normalize_name (lower_string name) = normalize_name name.
Proof.
  intros B A. split.
  - rewrite !normalize_name_chars, list_ascii_of_string_of_list_ascii, !map_app.
    rewrite (strip_list_blanks _ _ _ (is_space_lower_list _ B) (is_space_lower_list _ A)).
    reflexivity.
  - rewrite !normalize_name_chars. unfold lower_string.
    rewrite list_ascii_of_string_of_list_ascii, map_map.
    f_equal. f_equal. apply map_ext. intros a. apply lower_lower.
Qed.

(** The statement at the header [" DATE "]. *)
Lemma header_padding_ignored_witness :
  normalize_name " DATE " = normalize_name "DATE"
  /\ normalize_name (lower_string "DATE") = normalize_name "DATE".
Proof.
  apply (header_padding_ignored [" "%char] [" "%char] "DATE"); repeat constructor.
Defined.

(** ** The shares shown *)

Lemma percent_in_range (n d : Z) :
  1 <= n -> n <= d -> (0 < percent n d /\ percent n d <= 100)%Q.
Proof.
  intros N D. unfold percent. destruct d as [| d | d]; [lia | | lia].
  unfold Qlt, Qle, Qdiv, Qmult, Qinv, inject_Z. cbn [Qnum Qden].
  rewrite ?Pos2Z.inj_mul. split; nia.
Qed.

Lemma entry_le_total {K} (t : table K) (e : K * Z) :
  Forall (fun x => 1 <= snd x) t -> In e t -> snd e <= total t.
Proof.
  induction 1 as [| x t Hx Ht IH]; intros H; [destruct H |].
  rewrite total_cons. pose proof (total_nonneg t Ht). destruct H as [<- | H]; [lia |].
  specialize (IH H). lia.
Qed.

Lemma at_rank_Forall {A B} (P : B -> Prop) (t : list A) (n : nat) (f : A -> B) :
  (forall x, In x t -> P (f x)) -> Forall P (at_rank t n f).
Proof.
  intros H. unfold at_rank. destruct (nth_error t n) as [x |] eqn:E; [| constructor].
  constructor; [| constructor]. apply H. exact (nth_error_In _ _ E).
Qed.

Lemma value_counts_positive (col : row (option Timestamp) Z -> cell) (df : Frame) :
  Forall (fun e => 1 <= snd e) (value_counts (map col df)).
Proof.
  destruct (value_counts_counts col df) as [_ [P _]].
  apply Forall_forall. intros [k n] H. exact (proj1 (proj2 (P k n H))).
Qed.

(** X17.  Every share shown in the sentiment and media type insights is
    above 0 and at most 100 percent: a share is only computed for a row
    of the table, and then the total it divides by is not 0. *)
Theorem shares_in_range (df : Frame) :
  Forall share_in_range (sentiment_insights (sentiment_counts df))
  /\ Forall share_in_range (media_type_insights (media_type_counts df)).
Proof.
  split.
  - pose proof (value_counts_positive Sentiment df) as P.
    fold (sentiment_counts df) in P. unfold sentiment_insights.
    repeat (apply Forall_app; split); apply at_rank_Forall; intros x Hx; cbn;
      (apply percent_in_range;
       [rewrite Forall_forall in P; exact (P x Hx) | exact (entry_le_total _ _ P Hx)]).
  - pose proof (value_counts_positive Media_Type df) as P.
    fold (media_type_counts df) in P. unfold media_type_insights.
    repeat (apply Forall_app; split); apply at_rank_Forall; intros x Hx; cbn.
    + apply percent_in_range;
        [rewrite Forall_forall in P; exact (P x Hx) | exact (entry_le_total _ _ P Hx)].
    + apply percent_in_range;
        [rewrite Forall_forall in P; exact (P x Hx) | exact (entry_le_total _ _ P Hx)].
    + destruct (Qltb _ _); exact I.
Qed.

(** ** How many locations are shown *)

(** X18.  The top-locations table shows five locations when more than
    five have a sum, and all of them otherwise. *)
Theorem top_locations_count (df : Frame) :
  List.length (engagements_by_location df)
  = Nat.min 5 (List.length (location_sums df))
  /\ ((List.length (location_sums df) <= 5)%nat ->
      engagements_by_location df = sort_values_desc (location_sums df)).
Proof.
  unfold engagements_by_location.
  pose proof (Permutation_length (sort_values_desc_Permutation (location_sums df))) as L.
  split.
  - rewrite length_firstn, <- L. reflexivity.
  - intros H. apply firstn_all2. rewrite <- L. exact H.
Qed.

(** ** The fraction of an engagement *)

Lemma Qtrunc_bounds (q : Q) :
  ((0 <= q)%Q -> (inject_Z (Qtrunc q) <= q /\ q < inject_Z (Qtrunc q) + 1)%Q)
  /\ ((q <= 0)%Q -> (q <= inject_Z (Qtrunc q) /\ inject_Z (Qtrunc q) - 1 < q)%Q).
Proof.
  destruct q as [n d]. unfold Qtrunc, Qminus. unfold Qle, Qlt, Qplus, Qopp, inject_Z.
  cbn [Qnum Qden]. rewrite ?Pos2Z.inj_mul.
  pose proof (Z.quot_rem' n (Z.pos d)) as E.
  assert (D : 0 < Z.pos d) by lia.
  set (z := n ÷ Z.pos d) in *. set (r := Z.rem n (Z.pos d)) in *.
  split; intros H.
  - assert (N : 0 <= n) by lia.
    pose proof (Z.rem_bound_pos n (Z.pos d) N D). fold r in H0. nia.
  - assert (N : n <= 0) by lia.
    pose proof (Z.rem_bound_pos_neg n (Z.pos d) D N). fold r in H0. nia.
Qed.

(** X19.  A cell of a float column whose value is finite, with an
    integer part in the 64-bit range, is stored as that value with its
    fraction dropped toward 0: the stored integer is the nearest integer
    that is not farther from 0 than the value, neither a rounding nor a
    floor. *)
Theorem engagement_truncated (q : Q) :
  int64 (Qtrunc q) ->
  exists z,
    convert_engagement (CFloat (Fin q)) = Ok z
    /\ ((0 <= q)%Q -> (inject_Z z <= q /\ q < inject_Z z + 1)%Q)
    /\ ((q <= 0)%Q -> (q <= inject_Z z /\ inject_Z z - 1 < q)%Q).
Proof.
  intros H. exists (Qtrunc q). unfold convert_engagement.
  cbn [to_numeric fillna astype_int]. apply is_int64_spec in H. rewrite H.
  split; [reflexivity | exact (Qtrunc_bounds q)].
Qed.

(** The statement at the float -3.5, stored as -3. *)
Lemma engagement_truncated_witness :
  exists z,
    convert_engagement (CFloat (Fin (- (7 # 2)))) = Ok z
    /\ ((0 <= - (7 # 2))%Q -> (inject_Z z <= - (7 # 2) /\ - (7 # 2) < inject_Z z + 1)%Q)
    /\ ((- (7 # 2) <= 0)%Q -> (- (7 # 2) <= inject_Z z /\ inject_Z z - 1 < - (7 # 2))%Q).
Proof.
  apply (engagement_truncated (- (7 # 2))). vm_compute. split; [discriminate | reflexivity].
Defined.
